(** * PageRank by damped power iteration: a model of [pr.py]

    The development follows the two functions of the program that carry its
    logic: [readLinksFile], which turns the rows of a links file into a sparse
    transition matrix and a vector of dangling flags, and [pageRank], the
    power-iteration loop.

    Modelling choices.

    - Numbers.  The program computes in IEEE floating point ([float32]
      vectors, Python floats for [damp] and [eps]).  The model computes in
      exact rational arithmetic, on the canonical rationals [Qc]: what it
      says of the value of a rank or of a residual, and of a test that
      depends on such a value, is said of the arithmetic the program
      approximates.  Two places where floating point decides the course of
      the program whatever the rounding are modelled as they are: the
      starting residual [eps + 1] of line 49, which is not above [eps] when
      [eps] is large ([sentinel]), and the division by a norm that is 0 at
      line 65, which leaves [nan] in [r] and makes scipy's [lin.norm] raise
      at line 67 ([divides_by_zero]).  Arguments are finite numbers.
    - Exceptions.  A computation that can raise is a [PyResult]; an exception
      is its class together with the source line that raises it.
    - Arrays.  A numpy array is a list; [a[k] = v] is [setitem], with numpy's
      bounds check and its counting of negative indices from the end written
      out.  The [int32] array of the destinations keeps the low 32 bits of
      what line 90 stores ([as_int32]); a C [long] has 64 bits.  Page counts
      are taken below [2^31], the range of the indices of the matrix.
    - Files.  A file is the list of its lines, a line the list of its
      comma-separated fields, and a field the integer [int] reads in it, if
      any.
    - Libraries.  [spm.coo_matrix] is modelled by its index check and by the
      list of the triples that lines 89-91 have written; the product
      [link_mat * r_old] adds [w * x[j]] to row [i] for each triple
      [(i, j, w)].  The conversion [tocsr] of line 94 merges the triples that
      share a position into one that holds their sum; the product, the only
      use [pageRank] makes of the matrix, is the same before and after
      ([matvec_coefficients]).
    - The [while True] loop of [pageRank] is run by [while_true] under a
      bound on the number of passes; the bound the model gives it,
      [max_iters + 1], is never reached. *)

From Stdlib Require Import ZArith QArith Qround Qcanon Qcabs String.
From stdpp Require Import base tactics option list numbers.
From stdpp Require pretty.

Local Open Scope Z_scope.

(** ** Python results *)

Inductive exn : Set :=
  | IndexError (line : nat)
  | ValueError (line : nat)
  | AssertionError (line : nat)
  | StopIteration (line : nat)
  | OverflowError (line : nat).

Inductive PyResult (A : Type) : Type :=
  | Ok (a : A)
  | Raise (e : exn).
Arguments Ok {A} a.
Arguments Raise {A} e.

Global Instance PyResult_ret : MRet PyResult := fun _ a => Ok a.
Global Instance PyResult_bind : MBind PyResult := fun _ _ f m =>
  match m with
  | Ok a => f a
  | Raise e => Raise e
  end.

(** [assert c], raising from line [line]. *)
Definition py_assert (line : nat) (c : bool) : PyResult unit :=
  if c then Ok tt else Raise (AssertionError line).

(** ** Dense vectors *)

Module Vec.
Local Open Scope Qc_scope.

Definition Qc_of_nat (n : nat) : Qc := Qc_of_Z (Z.of_nat n).

(** [np.sum] *)
Definition sum (v : list Qc) : Qc := foldr Qcplus 0 v.

(** [lin.norm(v, 1)] *)
Definition norm1 (v : list Qc) : Qc := sum (Qcabs <$> v).

(** [np.dot(d, v)] for an integer vector [d] *)
Definition dot (d : list Z) (v : list Qc) : Qc :=
  sum (zip_with (fun a x => Qc_of_Z a * x) d v).

(** [c * v] *)
Definition scale (c : Qc) (v : list Qc) : list Qc := Qcmult c <$> v.

(** [v + w], [v - w], [v / c].  In [Qc] a quotient by 0 is 0; the program
    divides by 0 only at line 65, which [Solver.loop_pass] treats apart. *)
Definition add (v w : list Qc) : list Qc := zip_with Qcplus v w.
Definition sub (v w : list Qc) : list Qc := zip_with Qcminus v w.
Definition div (v : list Qc) (c : Qc) : list Qc := (fun x => x / c) <$> v.

(** [np.ones(n) / n] *)
Definition uniform (n : nat) : list Qc := replicate n (1 / Qc_of_nat n).

(** [v[j]] for an index in range *)
Definition get (v : list Qc) (j : nat) : Qc := default 0 (v !! j).

(** The sum of [f 0], ..., [f (n - 1)]. *)
Definition sum_upto (n : nat) (f : nat -> Qc) : Qc := sum (f <$> seq 0 n).
End Vec.

(** ** Sparse matrices *)

(** A sparse matrix is its shape and its stored entries [(row, col, value)];
    entries that share a position add up, as they do when scipy converts the
    coordinate form to [csr]. *)
Record sparse : Type := Sparse {
  shape : nat * nat;
  entries : list (nat * nat * Qc)
}.

Module Sp.
Local Open Scope Qc_scope.

(** [y[i] += d] *)
Definition add_at (i : nat) (d : Qc) (y : list Qc) : list Qc :=
  alter (fun a => a + d) i y.

(** [M * x]: each stored entry [(i, j, w)] adds [w * x[j]] to row [i]. *)
Definition matvec (M : sparse) (x : list Qc) : list Qc :=
  foldl (fun y '(i, j, w) => add_at i (w * Vec.get x j) y)
        (replicate (fst (shape M)) 0) (entries M).

(** The sum of the stored values of column [c]. *)
Definition colsum (M : sparse) (c : nat) : Qc :=
  Vec.sum ((fun '(_, j, w) => if decide (j = c) then w else 0) <$> entries M).

(** The coefficient at row [i] and column [j]: the sum of the values stored
    at that position. *)
Definition coeff (M : sparse) (i j : nat) : Qc :=
  Vec.sum ((fun '(i', j', w) => if decide (i' = i /\ j' = j) then w else 0)
             <$> entries M).

(** The number of stored values of column [c]: the out-degree of node [c]
    in the matrix the loader builds. *)
Definition colcount (M : sparse) (c : nat) : nat :=
  length (filter (fun e : nat * nat * Qc => e.1.2 = c) (entries M)).
End Sp.

(** ** The solver: [pageRank] *)

Module Solver.
Local Open Scope Qc_scope.

(** Default arguments of [pageRank]. *)
Definition default_damp : Qc := Q2Qc (85 # 100).
Definition default_eps : Qc := Q2Qc (1 # 10000000).
Definition default_max_iters : Z := 50.

(** The variables of the loop. *)
Record loop_state : Type := LoopState {
  r : list Qc;
  r_old : list Qc;
  residual : Qc;
  iters : Z
}.

(** What [pageRank] returns: [r, residual, iters, stop]. *)
Definition outcome : Type := list Qc * Qc * Z * string.

Section Loop.
Variable link_mat : sparse.
Variable dangle_vec : list Z.
Variables damp eps : Qc.
Variable max_iters : Z.
Variable u : list Qc.

(** Lines 62-64: the vector that line 65 normalises. *)
Definition unnormalised (r_old : list Qc) : list Qc :=
  let r := Vec.scale (damp * Vec.dot dangle_vec r_old) u in
  let r := Vec.add r (Vec.scale (1 - damp) u) in
  let r := Vec.add r (Vec.scale damp (Sp.matvec link_mat r_old)) in
  r.

(** Lines 62-65: the new rank vector from the copy [r_old] of the
    current one. *)
Definition update (r_old : list Qc) : list Qc :=
  let r := unnormalised r_old in
  let r := Vec.div r (Vec.norm1 r) in
  r.

(** Line 65 when the norm is 0.  numpy divides all the same, with a
    warning, and every entry of a vector of norm 0 being 0, every entry of
    [r] becomes [nan]; an empty vector stays empty. *)
Definition divides_by_zero (r_old : list Qc) : bool :=
  bool_decide (unnormalised r_old <> [] /\ Vec.norm1 (unnormalised r_old) = 0).

(** One pass of the [while True] loop (lines 52-67): either the loop
    breaks with a stop reason, or it runs the body once.  [lin.norm] is
    scipy's, which refuses an array that holds [nan]: after a division by a
    zero norm, line 67 raises [ValueError]. *)
Definition loop_pass (s : loop_state) : PyResult (loop_state + outcome) :=
  if bool_decide (residual s <= eps) then
    Ok (inr (r s, residual s, iters s, "residual"%string))
  else if bool_decide (iters s = max_iters) then
    Ok (inr (r s, residual s, iters s, "iters"%string))
  else
    let iters := (iters s + 1)%Z in
    let r_old := r s in
    let r := update r_old in
    if divides_by_zero r_old then Raise (ValueError 67)
    else
      let residual := Vec.norm1 (Vec.sub r_old r) in
      Ok (inl (LoopState r r_old residual iters)).

(** At most [fuel] passes. *)
Fixpoint while_true (fuel : nat) (s : loop_state) : option (PyResult outcome) :=
  match fuel with
  | O => None
  | S fuel =>
      match loop_pass s with
      | Raise e => Some (Raise e)
      | Ok (inr out) => Some (Ok out)
      | Ok (inl s') => while_true fuel s'
      end
  end.
End Loop.

(** Line 49: [eps + 1], a sum of Python floats (64 bits, 53 of them for the
    digits).  Below [2^53] neighbouring floats are at most 1 apart, and the
    rounded sum is above [eps]; the model takes it exact.  From [2^54] on
    they are 4 or more apart and the sum rounds back to [eps].  In between,
    the floats are the even integers and [eps + 1] lies halfway between two
    of them: it rounds to the one whose half is even. *)
Definition sentinel (eps : Qc) : Qc :=
  if bool_decide (eps < Qc_of_Z (2 ^ 53)) then eps + 1
  else if bool_decide (eps < Qc_of_Z (2 ^ 54)) && Z.odd (Qfloor eps / 2)%Z
  then eps + 2
  else eps.

(** Line 70. *)
Definition norm_check (r : list Qc) : bool :=
  bool_decide (Qcabs (1 - Vec.norm1 r) < Q2Qc (1 # 10000)).

(** [pageRank(link_mat, dangle_vec, damp, eps, max_iters)].  The result is
    [None] only if the loop has not stopped after [max_iters + 1] passes. *)
Definition pageRank (link_mat : sparse) (dangle_vec : list Z)
    (damp eps : Qc) (max_iters : Z) : option (PyResult outcome) :=
  let n := length dangle_vec in
  if negb (bool_decide (fst (shape link_mat) = snd (shape link_mat))
           && bool_decide (snd (shape link_mat) = n)) then
    Some (Raise (AssertionError 41))
  else if negb (bool_decide (0 <= damp) && bool_decide (damp <= 1)) then
    Some (Raise (AssertionError 42))
  else if negb (bool_decide (0 <= eps)) then
    Some (Raise (AssertionError 43))
  else if negb (bool_decide (0 <= max_iters)%Z) then
    Some (Raise (AssertionError 44))
  else
    let u := Vec.uniform n in
    let init := LoopState u u (sentinel eps) 0 in
    match while_true link_mat dangle_vec damp eps max_iters u
            (S (Z.to_nat max_iters)) init with
    | None => None
    | Some (Raise e) => Some (Raise e)
    | Some (Ok (r, residual, iters, stop)) =>
        if norm_check r then Some (Ok (r, residual, iters, stop))
        else Some (Raise (AssertionError 70))
    end.
End Solver.

(** ** The loader: [readLinksFile] *)

Module Loader.

(** A comma-separated field of a line: text that [int] accepts, with the
    integer it denotes, or any other text. *)
Inductive field : Set :=
  | Digits (z : Z)
  | Garbage.

(** A line of the file is the list of its fields; a blank line has none. *)
Definition line : Type := list field.

(** [int(x)] at source line [ln]. *)
Definition int (ln : nat) (x : field) : PyResult Z :=
  match x with
  | Digits z => Ok z
  | Garbage => Raise (ValueError ln)
  end.

(** What an [int32] array keeps of an integer: its low 32 bits, read as a
    signed number. *)
Definition wrap32 (z : Z) : Z := (z + 2 ^ 31) `mod` 2 ^ 32 - 2 ^ 31.

(** The value that [a[k] = x] stores at line [ln], for an [int32] array [a]
    and a field [x] of the file.  numpy reads the text as [int] does, takes
    the integer through a C [long] (64 bits), which raises beyond its range,
    and casts the [long] to 32 bits without a check. *)
Definition as_int32 (ln : nat) (x : field) : PyResult Z :=
  z ← int ln x;
  if bool_decide (- 2 ^ 63 <= z < 2 ^ 63) then Ok (wrap32 z)
  else Raise (OverflowError ln).

(** [int(f.next())]: the next line of the file, whole. *)
Definition int_next (ln : nat) (f : list line) : PyResult (Z * list line) :=
  match f with
  | [] => Raise (StopIteration ln)
  | [x] :: f => z ← int ln x; Ok (z, f)
  | _ :: _ => Raise (ValueError ln)
  end.

(** [np.zeros(k)] and [np.ones(k)]: a negative length is refused. *)
Definition np_full {A : Type} (ln : nat) (x : A) (k : Z) : PyResult (list A) :=
  if bool_decide (0 <= k)%Z then Ok (replicate (Z.to_nat k) x)
  else Raise (ValueError ln).

(** [a[k] = v]: numpy counts a negative index from the end and refuses an
    index outside [-len(a), len(a)). *)
Definition setitem {A : Type} (ln : nat) (a : list A) (k : Z) (v : A)
    : PyResult (list A) :=
  let len := Z.of_nat (length a) in
  if bool_decide (0 <= k < len)%Z then Ok (<[Z.to_nat k := v]> a)
  else if bool_decide (- len <= k < 0)%Z then Ok (<[Z.to_nat (len + k) := v]> a)
  else Raise (IndexError ln).

(** The arrays and the counter the loop over the lines works on. *)
Record arrays : Type := Arrays {
  sources : list Z;
  links : list Z;
  normadj : list Qc;
  dangle : list Z;
  links_seen : nat
}.

(** The three link arrays have length [m]. *)
Definition sized (m : nat) (st : arrays) : Prop :=
  length (sources st) = m /\ length (links st) = m /\ length (normadj st) = m.

(** Lines 88-91: [for i in range(0, outdeg)], from index [i] on; [rest]
    holds [line[i + 1]], [line[i + 2]], ...  Line 90 stores the text of the
    destination in the [int32] array [links].  The source stored at line 89
    is an integer that has passed the bounds check of line 87: it indexes
    the flags, and for every page count below [2^31], the largest a matrix
    with [int32] indices has, it is an [int32] and is stored as it is. *)
Fixpoint fill (source : Z) (outdeg : nat) (rest : list field) (i : nat)
    (st : arrays) : PyResult arrays :=
  match rest with
  | [] => Ok st
  | x :: rest =>
      let k := Z.of_nat (links_seen st + i) in
      sources' ← setitem 89 (sources st) k source;
      dest ← as_int32 90 x;
      links' ← setitem 90 (links st) k dest;
      normadj' ← setitem 91 (normadj st) k (1 / Vec.Qc_of_nat outdeg)%Qc;
      fill source outdeg rest (S i)
        (Arrays sources' links' normadj' (dangle st) (links_seen st))
  end.

(** Lines 84-92: the body of [for line in csv.reader(f)]. *)
Definition read_line (l : line) (st : arrays) : PyResult arrays :=
  match l with
  | [] => Raise (IndexError 84)
  | x :: dests =>
      source ← int 84 x;
      let outdeg := length dests in
      if bool_decide (0 < outdeg)%nat then
        dangle' ← setitem 87 (dangle st) source 0%Z;
        st' ← fill source outdeg dests 0
               (Arrays (sources st) (links st) (normadj st) dangle' (links_seen st));
        Ok (Arrays (sources st') (links st') (normadj st') (dangle st')
              (links_seen st' + outdeg))
      else Ok st
  end.

(** Line 83: the loop over the remaining lines. *)
Fixpoint read_lines (ls : list line) (st : arrays) : PyResult arrays :=
  match ls with
  | [] => Ok st
  | l :: ls => st' ← read_line l st; read_lines ls st'
  end.

(** Line 94: [spm.coo_matrix((data, (row, col)), shape = (n, n)).tocsr()].
    scipy refuses an index that is negative or not below the dimension.  The
    model keeps the triples as the arrays hold them; [tocsr] merges those
    that share a position into their sum, which leaves every coefficient
    [Sp.coeff], every column sum and every product with a vector as it
    is. *)
Definition coo_matrix (ln : nat) (data : list Qc) (row col : list Z) (n : Z)
    : PyResult sparse :=
  let inside := fun k : Z => bool_decide (0 <= k < n)%Z in
  if forallb inside row && forallb inside col then
    Ok (Sparse (Z.to_nat n, Z.to_nat n)
          (zip (zip (Z.to_nat <$> row) (Z.to_nat <$> col)) data))
  else Raise (ValueError ln).

(** [readLinksFile], on the lines of the file. *)
Definition readLinksFile (f : list line) : PyResult (Z * sparse * list Z) :=
  '(num_pages, f) ← int_next 75 f;
  '(num_links, f) ← int_next 76 f;
  srcs ← np_full 78 0%Z num_links;
  lnks ← np_full 79 0%Z num_links;
  nadj ← np_full 80 0%Qc num_links;
  dngl ← np_full 81 1%Z num_pages;
  st ← read_lines f (Arrays srcs lnks nadj dngl 0);
  _ ← py_assert 93 (bool_decide (Z.of_nat (links_seen st) = num_links));
  link_mat ← coo_matrix 94 (normadj st) (links st) (sources st) num_pages;
  Ok (num_pages, link_mat, dangle st).

(** The file of the module docstring. *)
Definition example_file : list line :=
  [ [Digits 3]; [Digits 4];
    [Digits 0; Digits 1; Digits 2];
    [Digits 1; Digits 2];
    [Digits 2; Digits 0] ].

(** *** What the loop reads

    The functions below describe the lines a successful run has read;
    they serve to state what [readLinksFile] returns. *)

(** The number of destination entries of the lines: [len(line) - 1], summed
    over the lines. *)
Definition total_dests (ls : list line) : nat :=
  sum_list ((fun l => pred (length l)) <$> ls).

(** A line with source [s] and at least one destination. *)
Definition has_source (s : Z) (l : line) : bool :=
  match l with
  | Digits s' :: _ :: _ => bool_decide (s' = s)
  | _ => false
  end.

(** The number of such lines. *)
Definition lines_from (s : Z) (ls : list line) : nat :=
  length (filter (fun l => has_source s l = true) ls).

(** The exceptions a line can raise when the arrays have room for its
    destinations: a blank line or a source that is not an integer
    (line 84), a source outside the flags (line 87), a destination that is
    not an integer or does not fit a C [long] (line 90). *)
Definition line_error (e : exn) : Prop :=
  e = IndexError 84 \/ e = ValueError 84 \/ e = IndexError 87 \/
  e = ValueError 90 \/ e = OverflowError 90.

Definition parse_field (x : field) : option Z :=
  match x with
  | Digits z => Some z
  | Garbage => None
  end.

(** A destination stored without error: the 32 bits kept of it. *)
Definition parse_dest (x : field) : option Z :=
  z ← parse_field x;
  if bool_decide (- 2 ^ 63 <= z < 2 ^ 63) then Some (wrap32 z) else None.

(** A line read without error: its source and its destinations, as
    stored. *)
Definition parse_line (l : line) : option (Z * list Z) :=
  match l with
  | [] => None
  | x :: dests =>
      s ← parse_field x; ds ← mapM parse_dest dests; Some (s, ds)
  end.

(** The weight of each link of a page with [k] links. *)
Definition weight (k : nat) : Qc := (1 / Vec.Qc_of_nat k)%Qc.

(** What a line adds to the three arrays, and to the matrix. *)
Definition line_sources (row : Z * list Z) : list Z :=
  replicate (length row.2) row.1.
Definition line_links (row : Z * list Z) : list Z := row.2.
Definition line_normadj (row : Z * list Z) : list Qc :=
  replicate (length row.2) (weight (length row.2)).
Definition line_entries (row : Z * list Z) : list (nat * nat * Qc) :=
  (fun d => (Z.to_nat d, Z.to_nat row.1, weight (length row.2))) <$> row.2.

(** What a line does to the flags: a line with a destination clears the
    flag its source indexes, counted from the end if negative. *)
Definition mark (dangle : list Z) (row : Z * list Z) : list Z :=
  match row.2 with
  | [] => dangle
  | _ :: _ => <[Z.to_nat (row.1 `mod` Z.of_nat (length dangle)) := 0%Z]> dangle
  end.
End Loader.

(** The worked example of the module docstring: pages 0, 1, 2 with links
    0 -> 1, 0 -> 2, 1 -> 2, 2 -> 0. *)
Definition example_mat : sparse :=
  Sparse (3%nat, 3%nat)
    [ (1%nat, 0%nat, Q2Qc (1 # 2)); (2%nat, 0%nat, Q2Qc (1 # 2));
      (2%nat, 1%nat, Q2Qc 1); (0%nat, 2%nat, Q2Qc 1) ].


(** ** The iteration in the words of the specification *)

(** Section 4.2 of the specification, steps 1 to 7, for comparison with
    lines 61-67 of the program. *)
Module Spec.
Local Open Scope Qc_scope.

(** A flag per node, read off the integer vector the program keeps. *)
Definition flags (dangle_vec : list Z) : list bool :=
  (fun d => bool_decide (d <> 0%Z)) <$> dangle_vec.

(** Step 2: [damp * sum_i (danglingFlags[i] ? r_old[i] : 0)]. *)
Definition danglingMass (damp : Qc) (danglingFlags : list bool)
    (r_old : list Qc) : Qc :=
  damp * Vec.sum (zip_with (fun (flag : bool) x => if flag then x else 0)
                    danglingFlags r_old).

(** The matrix-vector product, one row at a time: row [i] of the result is
    the sum of [w * x[j]] over the stored entries [(i, j, w)] of row [i]. *)
Definition row_product (M : sparse) (x : list Qc) (i : nat) : Qc :=
  Vec.sum ((fun '(i', j, w) => if decide (i' = i) then w * Vec.get x j else 0)
             <$> entries M).

Definition product (M : sparse) (x : list Qc) : list Qc :=
  row_product M x <$> seq 0 (fst (shape M)).

(** Steps 1 to 7: the new rank vector and the residual. *)
Definition iteration (sparseTransition : sparse) (danglingFlags : list bool)
    (damp : Qc) (u r : list Qc) : list Qc * Qc :=
  let r_old := r in
  let mass := danglingMass damp danglingFlags r_old in
  let r := Vec.scale mass u in
  let r := Vec.add r (Vec.scale (1 - damp) u) in
  let r := Vec.add r (Vec.scale damp (product sparseTransition r_old)) in
  let r := Vec.div r (Vec.norm1 r) in
  let residual := Vec.norm1 (Vec.sub r_old r) in
  (r, residual).
End Spec.

(** ** Predicates on inputs *)

(** A vector of dangling flags holds zeros and ones. *)
Definition is_flags (dangle_vec : list Z) : Prop :=
  Forall (fun d => d = 0 \/ d = 1) dangle_vec.

(** A probability distribution: no negative entry, entries summing to 1. *)
Definition distribution (v : list Qc) : Prop :=
  Forall (Qcle 0) v /\ Vec.sum v = 1%Qc.

(** What the solver expects of the loader's output: a square matrix of the
    size of the flag vector, with indices inside the shape and no negative
    weight, in which the column of a dangling node is all zero and the
    column of any other node sums to 1. *)
Definition stochastic (M : sparse) (dangle_vec : list Z) : Prop :=
  let n := length dangle_vec in
  shape M = (n, n) /\
  Forall (fun '(i, j, w) => (i < n)%nat /\ (j < n)%nat /\ (0 <= w)%Qc) (entries M) /\
  forall c, (c < n)%nat ->
    (dangle_vec !! c = Some 1 /\
       Forall (fun '(_, j, w) => j = c -> w = 0%Qc) (entries M)) \/
    (dangle_vec !! c = Some 0 /\ Sp.colsum M c = 1%Qc).

(** Two lists of triples that stand for the same matrix: the same shape,
    columns inside it, and the same sum at every position.  A matrix in
    coordinate form and its conversion to [csr], which merges the triples
    that share a position, are two such. *)
Definition same_matrix (M M' : sparse) : Prop :=
  shape M = shape M' /\
  Forall (fun '(_, j, _) => (j < snd (shape M))%nat) (entries M) /\
  Forall (fun '(_, j, _) => (j < snd (shape M'))%nat) (entries M') /\
  forall i j, Sp.coeff M i j = Sp.coeff M' i j.

(** The graph with [n] nodes and no link, as the loader returns it. *)
Definition no_links (n : nat) : sparse * list Z :=
  (Sparse (n, n) [], replicate n 1).

(** ** Well-formed files *)


(** The exceptions [readLinksFile] raises on the lines of a file, by the
    line that raises them: the two header lines (75, 76), the allocations
    (78, 81), the source of a line (84), its flag (87), the room in the
    arrays (89), a destination (90), the link count (93) and the matrix
    (94).  What the system can add (a file that does not open, memory that
    runs out) is outside the model. *)
Definition loader_error (e : exn) : Prop :=
  e ∈ [ StopIteration 75; ValueError 75; StopIteration 76; ValueError 76;
        ValueError 78; ValueError 81; IndexError 84; ValueError 84;
        IndexError 87; IndexError 89; ValueError 90; OverflowError 90;
        AssertionError 93; ValueError 94 ].

(** ** The driver: [writeRanksFile] and [main] *)

Module Driver.

(** The line feed that ends each written line. *)
Definition newline : string := String (Ascii.ascii_of_nat 10) EmptyString.

Section Write.
(** [str(x)] of a rank: numpy's decimal rendering of a [float32].  The model
    leaves its digits open. *)
Variable str_rank : Qc -> string.

(** [writeRanksFile(filename, r)]: the strings handed to [f.write], in order;
    the file holds their concatenation.  [str(i)] of an index is its decimal
    digits. *)
Definition writeRanksFile (r : list Qc) : list string :=
  imap (fun i x => (pretty.pretty i ++ ", " ++ str_rank x ++ newline)%string) r.

(** [main], from the lines of the file that [argv[1]] names: load, solve
    with the default arguments, write, return 0.  The value is the return
    code with what was written to the file [ranks]; logging is left out. *)
Definition main (f : list Loader.line) : option (PyResult (Z * list string)) :=
  match Loader.readLinksFile f with
  | Raise e => Some (Raise e)
  | Ok (n, link_mat, dangle_vec) =>
      match Solver.pageRank link_mat dangle_vec Solver.default_damp
              Solver.default_eps Solver.default_max_iters with
      | None => None
      | Some (Raise e) => Some (Raise e)
      | Some (Ok (r, residual, iters, stop)) => Some (Ok (0, writeRanksFile r))
      end
  end.
End Write.
End Driver.

(** * Properties *)

(** ** Rational arithmetic *)

Section QcFacts.
Local Open Scope Qc_scope.

Lemma Qc_of_Z_0 : Qc_of_Z 0 = 0.
Proof. by apply Qc_is_canon. Qed.

Lemma Qc_of_Z_1 : Qc_of_Z 1 = 1.
Proof. by apply Qc_is_canon. Qed.

Lemma Qc_of_nat_nonneg n : 0 <= Vec.Qc_of_nat n.
Proof.
  unfold Vec.Qc_of_nat, Qcle, Qc_of_Z; simpl.
  unfold Qle; simpl. lia.
Qed.

Lemma Qc_of_nat_pos n : (0 < n)%nat -> 0 < Vec.Qc_of_nat n.
Proof.
  intros Hn. unfold Vec.Qc_of_nat, Qclt, Qc_of_Z; simpl.
  unfold Qlt; simpl. lia.
Qed.

Lemma Qc_of_nat_S n : Vec.Qc_of_nat (S n) = Vec.Qc_of_nat n + 1.
Proof.
  apply Qc_is_canon. unfold Vec.Qc_of_nat, Qc_of_Z. simpl this.
  rewrite Qred_correct. unfold Qeq, Qplus, inject_Z; simpl. lia.
Qed.

Lemma Qcinv_nonneg x : 0 <= x -> 0 <= / x.
Proof.
  intros Hx. destruct (Qc_eq_dec x 0) as [->|Hne]; [done|].
  apply Qclt_le_weak, Qcinv_pos. by apply Qcle_lt_or_eq in Hx as [?|?].
Qed.

Lemma Qcdiv_nonneg x y : 0 <= x -> 0 <= y -> 0 <= x / y.
Proof.
  intros Hx Hy. unfold Qcdiv. apply Qcmult_nonneg_nonneg; [done|].
  by apply Qcinv_nonneg.
Qed.

Lemma Qc_not_succ_le x : ~ x + 1 <= x.
Proof.
  intros H. apply (Qclt_not_le x (x + 1)); [|done].
  rewrite <- (Qcplus_0_r x) at 1. by apply Qcplus_lt_mono_l.
Qed.

(** Below [2^53] the sentinel of line 49 is [eps + 1]. *)
Lemma sentinel_small eps :
  eps < Qc_of_Z (2 ^ 53) -> Solver.sentinel eps = eps + 1.
Proof. intros H. unfold Solver.sentinel. by rewrite bool_decide_eq_true_2. Qed.

(** It is never below [eps]. *)
Lemma sentinel_ge eps : eps <= Solver.sentinel eps.
Proof.
  unfold Solver.sentinel. case_bool_decide.
  - apply Qclt_le_weak. rewrite <- (Qcplus_0_r eps) at 1.
    by apply Qcplus_lt_mono_l.
  - destruct (_ && _).
    + apply Qclt_le_weak. rewrite <- (Qcplus_0_r eps) at 1.
      by apply Qcplus_lt_mono_l.
    + apply Qcle_refl.
Qed.

Lemma sentinel_nonneg eps : 0 <= eps -> 0 <= Solver.sentinel eps.
Proof. intros H. eapply Qcle_trans; [exact H|apply sentinel_ge]. Qed.
End QcFacts.

(** ** Sums of vectors *)

Section VecFacts.
Local Open Scope Qc_scope.
Local Arguments Vec.sum : simpl never.
Implicit Types (v w : list Qc) (c : Qc).

Lemma sum_nil : Vec.sum [] = 0.
Proof. reflexivity. Qed.

Lemma sum_cons c v : Vec.sum (c :: v) = c + Vec.sum v.
Proof. reflexivity. Qed.

Lemma sum_replicate n c : Vec.sum (replicate n c) = Vec.Qc_of_nat n * c.
Proof.
  induction n as [|n IH].
  - change (Vec.Qc_of_nat 0) with (Qc_of_Z 0). rewrite Qc_of_Z_0.
    simpl replicate. rewrite sum_nil. ring.
  - rewrite Qc_of_nat_S. simpl replicate. rewrite sum_cons, IH. ring.
Qed.

Lemma sum_zeros n : Vec.sum (replicate n 0) = 0.
Proof. rewrite sum_replicate. ring. Qed.

Lemma sum_uniform n : (0 < n)%nat -> Vec.sum (Vec.uniform n) = 1.
Proof.
  intros Hn. unfold Vec.uniform. rewrite sum_replicate.
  pose proof (Qc_of_nat_pos n Hn) as Hpos.
  field. intros E. rewrite E in Hpos. by apply Qclt_not_eq in Hpos.
Qed.

Lemma sum_scale c v : Vec.sum (Vec.scale c v) = c * Vec.sum v.
Proof.
  unfold Vec.scale. induction v as [|x v IH].
  - rewrite fmap_nil, sum_nil. ring.
  - rewrite fmap_cons, !sum_cons, IH. ring.
Qed.

Lemma sum_add v w :
  length v = length w -> Vec.sum (Vec.add v w) = Vec.sum v + Vec.sum w.
Proof.
  unfold Vec.add. revert w.
  induction v as [|x v IH]; intros [|y w] Hlen; simplify_eq/=.
  - rewrite !sum_nil. ring.
  - rewrite !sum_cons, IH by done. ring.
Qed.

Lemma sum_nonneg v : Forall (Qcle 0) v -> 0 <= Vec.sum v.
Proof.
  induction 1 as [|x v Hx _ IH]; [done|].
  rewrite sum_cons. by apply Qcplus_nonneg_nonneg.
Qed.

Lemma norm1_nonneg v : Forall (Qcle 0) v -> Vec.norm1 v = Vec.sum v.
Proof.
  unfold Vec.norm1. induction 1 as [|x v Hx _ IH]; [done|].
  rewrite fmap_cons, !sum_cons, IH. by rewrite Qcabs_pos.
Qed.

Lemma norm1_uniform n : (0 < n)%nat -> Vec.norm1 (Vec.uniform n) = 1.
Proof.
  intros Hn. rewrite norm1_nonneg; [by apply sum_uniform|].
  apply Forall_replicate, Qcdiv_nonneg; [done|apply Qc_of_nat_nonneg].
Qed.

Lemma sub_diag v : Vec.sub v v = replicate (length v) 0.
Proof.
  unfold Vec.sub. induction v as [|x v IH]; [done|]; simpl.
  rewrite IH. f_equal. ring.
Qed.

Lemma norm1_zeros n : Vec.norm1 (replicate n 0) = 0.
Proof.
  unfold Vec.norm1. rewrite fmap_replicate.
  replace (Qcabs 0) with 0 by (symmetry; by apply Qcabs_pos).
  apply sum_zeros.
Qed.

Lemma div_one v : Vec.div v 1 = v.
Proof.
  unfold Vec.div. induction v as [|x v IH]; [done|].
  rewrite fmap_cons, IH. f_equal. field. done.
Qed.

Lemma length_scale c v : length (Vec.scale c v) = length v.
Proof. apply length_fmap. Qed.

Lemma length_add v w : length v = length w -> length (Vec.add v w) = length v.
Proof. intros H. unfold Vec.add. by rewrite length_zip_with_l_eq. Qed.

Lemma length_uniform n : length (Vec.uniform n) = n.
Proof. apply length_replicate. Qed.

Lemma sum_add_at i d v :
  (i < length v)%nat -> Vec.sum (Sp.add_at i d v) = Vec.sum v + d.
Proof.
  unfold Sp.add_at, alter. revert i.
  induction v as [|x v IH]; intros [|i] Hi; simpl in *; try lia.
  - rewrite !sum_cons. ring.
  - rewrite !sum_cons, IH by lia. ring.
Qed.

Lemma length_add_at i d v : length (Sp.add_at i d v) = length v.
Proof. apply length_alter. Qed.
End VecFacts.

(** ** The loop of [pageRank] *)

Section LoopFacts.
Local Open Scope Qc_scope.
Import Solver.
Variable link_mat : sparse.
Variable dangle_vec : list Z.
Variables damp eps : Qc.
Variable max_iters : Z.
Variable u : list Qc.

(** A pass that breaks returns the variables as they are at the top of the
    loop, and tells which of the two tests held. *)
Lemma loop_pass_break s out :
  loop_pass link_mat dangle_vec damp eps max_iters u s = Ok (inr out) ->
  (out = (r s, residual s, iters s, "residual"%string) /\ residual s <= eps) \/
  (out = (r s, residual s, iters s, "iters"%string) /\
     ~ residual s <= eps /\ iters s = max_iters).
Proof.
  unfold loop_pass. repeat case_bool_decide;
    [intros ?; simplify_eq; auto..|].
  by destruct (divides_by_zero _ _ _ _ _).
Qed.

(** The residual is tested first: a pass that starts with
    [residual <= eps] breaks on it, whatever [iters] is. *)
Lemma loop_pass_residual s :
  residual s <= eps ->
  loop_pass link_mat dangle_vec damp eps max_iters u s =
  Ok (inr (r s, residual s, iters s, "residual"%string)).
Proof. intros Hres. unfold loop_pass. by rewrite bool_decide_eq_true_2. Qed.

(** A pass that goes on has run the body once. *)
Lemma loop_pass_continue s s' :
  loop_pass link_mat dangle_vec damp eps max_iters u s = Ok (inl s') ->
  ~ residual s <= eps /\ iters s <> max_iters /\
  s' = LoopState (update link_mat dangle_vec damp u (r s)) (r s)
         (Vec.norm1 (Vec.sub (r s) (update link_mat dangle_vec damp u (r s))))
         (iters s + 1).
Proof.
  unfold loop_pass. repeat case_bool_decide; try done.
  destruct (divides_by_zero _ _ _ _ _); intros ?; by simplify_eq.
Qed.

(** A pass that goes on has not divided by zero. *)
Lemma loop_pass_finite s s' :
  loop_pass link_mat dangle_vec damp eps max_iters u s = Ok (inl s') ->
  divides_by_zero link_mat dangle_vec damp u (r s) = false.
Proof.
  unfold loop_pass. repeat case_bool_decide; try done.
  by destruct (divides_by_zero _ _ _ _ _).
Qed.

(** A pass raises only at line 67, in the body, after a division by a zero
    norm. *)
Lemma loop_pass_Raise s e :
  loop_pass link_mat dangle_vec damp eps max_iters u s = Raise e ->
  e = ValueError 67 /\ ~ residual s <= eps /\ iters s <> max_iters /\
  divides_by_zero link_mat dangle_vec damp u (r s) = true.
Proof.
  unfold loop_pass. repeat case_bool_decide; try done.
  destruct (divides_by_zero _ _ _ _ _); intros ?; by simplify_eq.
Qed.

(** The body of the loop, when neither test holds and the norm of line 65
    is not 0. *)
Lemma divides_by_zero_false rk :
  Vec.norm1 (unnormalised link_mat dangle_vec damp u rk) <> 0 ->
  divides_by_zero link_mat dangle_vec damp u rk = false.
Proof.
  intros Hne. unfold divides_by_zero. apply bool_decide_eq_false_2. tauto.
Qed.

Lemma loop_pass_body s :
  ~ residual s <= eps -> iters s <> max_iters ->
  Vec.norm1 (unnormalised link_mat dangle_vec damp u (r s)) <> 0 ->
  loop_pass link_mat dangle_vec damp eps max_iters u s =
  Ok (inl (LoopState (update link_mat dangle_vec damp u (r s)) (r s)
             (Vec.norm1 (Vec.sub (r s)
                (update link_mat dangle_vec damp u (r s))))
             (iters s + 1))).
Proof.
  intros Hres Hit Hne. unfold loop_pass.
  rewrite !bool_decide_eq_false_2 by done.
  by rewrite divides_by_zero_false.
Qed.

(** The loop stops: from a state with [iters <= max_iters], the passes
    that remain before [iters] reaches [max_iters], and one more, are
    enough. *)
Lemma while_true_stops s :
  (iters s <= max_iters)%Z ->
  exists res,
    while_true link_mat dangle_vec damp eps max_iters u
      (S (Z.to_nat (max_iters - iters s))) s = Some res.
Proof.
  remember (Z.to_nat (max_iters - iters s)) as k eqn:Hk.
  revert s Hk. induction k as [|k IH]; intros s Hk Hle.
  - cbn [while_true].
    destruct (loop_pass link_mat dangle_vec damp eps max_iters u s)
      as [[s'|out]|e] eqn:Hp; [|by eexists..].
    apply loop_pass_continue in Hp as (_ & Hne & _). lia.
  - cbn [while_true].
    destruct (loop_pass link_mat dangle_vec damp eps max_iters u s)
      as [[s'|out]|e] eqn:Hp; [|by eexists..].
    apply loop_pass_continue in Hp as (_ & Hne & ->).
    apply IH; simpl; lia.
Qed.

(** Whatever the loop returns, its stop reason records the test that
    broke it. *)
Lemma while_true_outcome fuel s rk res it stop :
  while_true link_mat dangle_vec damp eps max_iters u fuel s
  = Some (Ok (rk, res, it, stop)) ->
  (stop = "residual"%string /\ res <= eps) \/
  (stop = "iters"%string /\ ~ res <= eps /\ it = max_iters).
Proof.
  revert s. induction fuel as [|fuel IH]; intros s; [done|].
  cbn [while_true].
  destruct (loop_pass link_mat dangle_vec damp eps max_iters u s)
    as [[s'|out]|e] eqn:Hp; [by apply IH| |done].
  intros ?; simplify_eq.
  apply loop_pass_break in Hp as [[? ?]|[? [? ?]]]; simplify_eq; auto.
Qed.
End LoopFacts.

Section SolverFacts.
Local Open Scope Qc_scope.
Import Solver.

(** [pageRank] always returns or raises: the bound on the passes of the
    loop is not reached. *)
Lemma pageRank_returns link_mat dangle_vec damp eps max_iters :
  exists res, pageRank link_mat dangle_vec damp eps max_iters = Some res.
Proof.
  unfold pageRank.
  do 3 (match goal with |- context [if negb ?b then _ else _] =>
          destruct b; simpl negb; cbv iota; [|by eexists] end).
  case_bool_decide as Hm; simpl negb; cbv iota; [|by eexists].
  set (u := Vec.uniform _). set (init := LoopState u u (sentinel eps) 0).
  destruct (while_true_stops link_mat dangle_vec damp eps max_iters u init)
    as [[[[[rk res] it] stop]|e] Hrun]; [done| |].
  - simpl iters in Hrun. rewrite Z.sub_0_r in Hrun. rewrite Hrun.
    destruct (norm_check rk); by eexists.
  - simpl iters in Hrun. rewrite Z.sub_0_r in Hrun. rewrite Hrun.
    by eexists.
Qed.

(** What [pageRank] returns is what the loop returns. *)
Lemma pageRank_Ok_inv link_mat dangle_vec damp eps max_iters out :
  pageRank link_mat dangle_vec damp eps max_iters = Some (Ok out) ->
  while_true link_mat dangle_vec damp eps max_iters
    (Vec.uniform (length dangle_vec)) (S (Z.to_nat max_iters))
    (LoopState (Vec.uniform (length dangle_vec))
       (Vec.uniform (length dangle_vec)) (sentinel eps) 0) = Some (Ok out).
Proof.
  unfold pageRank.
  repeat (match goal with |- context [if negb ?b then _ else _] =>
            destruct b; simpl negb; cbv iota; [|done] end).
  destruct (while_true _ _ _ _ _ _ _ _) as [[[[[rk res] it] stop]|e]|];
    [|done..].
  destruct (norm_check rk); [|done]. by intros ?; simplify_eq.
Qed.
End SolverFacts.

(** ** The iteration step against the specification *)

Section StepFacts.
Local Open Scope Qc_scope.
Local Arguments Vec.sum : simpl never.
Import Solver.

(** On a vector of zeros and ones, the dot product of line 62 is the
    sum of the ranks of the flagged nodes. *)
Lemma dot_flags dangle_vec v :
  is_flags dangle_vec ->
  Vec.dot dangle_vec v =
  Vec.sum (zip_with (fun (flag : bool) x => if flag then x else 0)
             (Spec.flags dangle_vec) v).
Proof.
  unfold Vec.dot, Spec.flags. intros Hf. revert v.
  induction Hf as [|d ds Hd _ IH]; intros [|x v]; try done.
  rewrite fmap_cons. cbn [zip_with]. rewrite !sum_cons, IH. f_equal.
  destruct Hd as [->| ->]; simpl.
  - rewrite Qc_of_Z_0. ring.
  - rewrite Qc_of_Z_1. ring.
Qed.

(** The accumulation of [Sp.matvec], read at one row. *)
Lemma matvec_fold_lookup x es y i :
  foldl (fun y '(i, j, w) => Sp.add_at i (w * Vec.get x j) y) y es !! i =
  (fun a => a + Spec.row_product (Sparse (0%nat, 0%nat) es) x i) <$> y !! i.
Proof.
  revert y. induction es as [|[[i' j] w] es IH]; intros y.
  - unfold Spec.row_product. simpl entries. rewrite fmap_nil, sum_nil.
    cbn [foldl]. destruct (y !! i) as [a|]; simpl; [|done]. f_equal. ring.
  - cbn [foldl]. rewrite IH. unfold Sp.add_at, Spec.row_product.
    simpl entries. rewrite fmap_cons, sum_cons.
    destruct (decide (i' = i)) as [->|Hne].
    + rewrite list_lookup_alter_eq. destruct (y !! i) as [a|]; simpl; [|done].
      f_equal. ring.
    + rewrite list_lookup_alter_ne by done.
      destruct (y !! i) as [a|]; simpl; [|done]. f_equal. ring.
Qed.

(** The program's product is the row-by-row product. *)
Lemma matvec_product M x : Sp.matvec M x = Spec.product M x.
Proof.
  apply list_eq; intros i. unfold Sp.matvec, Spec.product.
  rewrite matvec_fold_lookup, list_lookup_fmap.
  destruct (decide (i < fst (shape M))%nat) as [Hi|Hi].
  - rewrite lookup_replicate_2, lookup_seq_lt by done. simpl. f_equal.
    unfold Spec.row_product. simpl entries. ring.
  - rewrite (proj1 (lookup_replicate_None _ _ _)) by lia.
    by rewrite lookup_seq_ge by lia.
Qed.
End StepFacts.

(** C1: every iteration the loop of [pageRank] performs follows the
    sequence of section 4.2 of the specification.  A pass that does not break
    keeps the old vector as [r_old], counts one more iteration, and leaves as
    new [r] and [residual] what steps 1 to 7 compute: the dangling mass
    [damp * sum_i (danglingFlags[i] ? r_old[i] : 0)] spread over [u], plus
    [(1 - damp) * u], plus [damp] times the row-by-row matrix-vector product,
    the whole divided by its L1 norm, and the L1 norm of [r_old - r]. *)
Theorem iteration_follows_spec link_mat dangle_vec damp eps max_iters u s s' :
  is_flags dangle_vec ->
  Solver.loop_pass link_mat dangle_vec damp eps max_iters u s = Ok (inl s') ->
  (Solver.r s', Solver.residual s') =
    Spec.iteration link_mat (Spec.flags dangle_vec) damp u (Solver.r s) /\
  Solver.r_old s' = Solver.r s /\
  Solver.iters s' = (Solver.iters s + 1)%Z.
Proof.
  intros Hflags Hpass.
  apply loop_pass_continue in Hpass as (_ & _ & ->). simpl.
  split; [|done].
  unfold Spec.iteration, Solver.update, Solver.unnormalised, Spec.danglingMass.
  by rewrite <- dot_flags, <- matvec_product.
Qed.

(** The first iteration on the worked example of the docstring. *)
Lemma iteration_follows_spec_witness :
  let u := Vec.uniform 3 in
  let s := Solver.LoopState u u (Solver.default_eps + 1)%Qc 0 in
  let r' := Solver.update example_mat [0; 0; 0] Solver.default_damp u u in
  let s' := Solver.LoopState r' u (Vec.norm1 (Vec.sub u r')) 1 in
  (Solver.r s', Solver.residual s') =
    Spec.iteration example_mat (Spec.flags [0; 0; 0]) Solver.default_damp u
      (Solver.r s) /\
  Solver.r_old s' = Solver.r s /\
  Solver.iters s' = (Solver.iters s + 1)%Z.
Proof.
  intros u s r' s'.
  apply (iteration_follows_spec example_mat [0; 0; 0] Solver.default_damp
           Solver.default_eps Solver.default_max_iters u s s').
  - repeat constructor.
  - vm_compute. reflexivity.
Defined.

(** ** Runs of [pageRank] *)

Section RunFacts.
Local Open Scope Qc_scope.
Import Solver.

(** The checks of lines 41-44 pass on well-formed arguments. *)
Lemma pageRank_checked link_mat dangle_vec damp eps max_iters :
  let n := length dangle_vec in
  let u := Vec.uniform n in
  shape link_mat = (n, n) ->
  0 <= damp <= 1 -> 0 <= eps -> (0 <= max_iters)%Z ->
  pageRank link_mat dangle_vec damp eps max_iters =
  match while_true link_mat dangle_vec damp eps max_iters u
          (S (Z.to_nat max_iters)) (LoopState u u (sentinel eps) 0) with
  | None => None
  | Some (Raise e) => Some (Raise e)
  | Some (Ok (rk, res, it, stop)) =>
      if norm_check rk then Some (Ok (rk, res, it, stop))
      else Some (Raise (AssertionError 70))
  end.
Proof.
  intros n u Hshape [Hd0 Hd1] He Hm. unfold pageRank. rewrite Hshape.
  simpl fst; simpl snd.
  by rewrite !bool_decide_eq_true_2 by done.
Qed.

(** The uniform vector of a graph with a node passes line 70. *)
Lemma norm_check_uniform n : (0 < n)%nat -> norm_check (Vec.uniform n) = true.
Proof.
  intros Hn. unfold norm_check. rewrite norm1_uniform by done.
  apply bool_decide_eq_true_2.
  replace (1 - 1) with 0 by ring. by rewrite Qcabs_pos.
Qed.

(** With no link and every node dangling, an iteration leaves the uniform
    vector as it is. *)
Lemma unnormalised_no_links n damp :
  (0 < n)%nat ->
  unnormalised (no_links n).1 (no_links n).2 damp
    (Vec.uniform n) (Vec.uniform n) = Vec.uniform n.
Proof.
  intros Hn.
  unfold unnormalised, no_links, Sp.matvec, Vec.dot. simpl.
  fold (Vec.uniform n).
  assert (Vec.sum (zip_with (fun a x => Qc_of_Z a * x) (replicate n 1%Z)
            (Vec.uniform n)) = 1) as ->.
  { unfold Vec.uniform at 1. rewrite zip_with_replicate, Qc_of_Z_1.
    rewrite Qcmult_1_l. by apply sum_uniform. }
  unfold Vec.uniform, Vec.scale, Vec.add.
  rewrite !fmap_replicate, !zip_with_replicate. f_equal. ring.
Qed.

Lemma update_no_links n damp :
  (0 < n)%nat ->
  update (no_links n).1 (no_links n).2 damp (Vec.uniform n) (Vec.uniform n)
  = Vec.uniform n.
Proof.
  intros Hn. unfold update. rewrite unnormalised_no_links by done.
  rewrite norm1_uniform by done. apply div_one.
Qed.

(** On that graph the loop runs one iteration and stops on the residual,
    which is 0. *)
Lemma no_links_run n damp eps max_iters :
  (0 < n)%nat -> 0 <= eps -> eps < Qc_of_Z (2 ^ 53) -> (1 <= max_iters)%Z ->
  while_true (no_links n).1 (no_links n).2 damp eps max_iters (Vec.uniform n)
    (S (Z.to_nat max_iters))
    (LoopState (Vec.uniform n) (Vec.uniform n) (sentinel eps) 0)
  = Some (Ok (Vec.uniform n, 0, 1%Z, "residual"%string)).
Proof.
  intros Hn Heps Hsmall Hm.
  destruct (Z.to_nat max_iters) as [|k] eqn:Hk; [lia|].
  cbn [while_true]. rewrite loop_pass_body; cbn [residual iters r].
  - rewrite update_no_links by done.
    rewrite sub_diag, norm1_zeros.
    rewrite loop_pass_residual by done. done.
  - rewrite sentinel_small by done. apply Qc_not_succ_le.
  - lia.
  - rewrite unnormalised_no_links, norm1_uniform by done. done.
Qed.
End RunFacts.

(** C3, on its counterexamples.  On the graph with no node, [max_iters = 0]
    does not return the starting vector: the loop stops at once, and the
    check of line 70 fails, the norm of the empty vector being 0.  With
    [eps = 2^53] the starting residual [eps + 1] of line 49 rounds back to
    [eps]: the first test of line 52 holds and the stop reason is
    ["residual"], not ["iters"]. *)
Lemma pageRank_zero_iters_fails :
  (shape (no_links 0).1 = (length (no_links 0).2, length (no_links 0).2) /\
   (0 <= Solver.default_damp <= 1)%Qc /\ (0 <= Solver.default_eps)%Qc /\
   Solver.pageRank (no_links 0).1 (no_links 0).2
     Solver.default_damp Solver.default_eps 0
   = Some (Raise (AssertionError 70))) /\
  ((0 <= Qc_of_Z (2 ^ 53))%Qc /\
   Solver.pageRank example_mat [0; 0; 0]
     Solver.default_damp (Qc_of_Z (2 ^ 53)) 0
   = Some (Ok (Vec.uniform 3, Qc_of_Z (2 ^ 53), 0, "residual"%string))).
Proof. split; by vm_compute. Qed.

(** C3, amended: for every graph with at least one node, every [damp] in
    [0, 1] and every [eps] with [0 <= eps < 2^53], [pageRank] with
    [max_iters = 0] runs no iteration and returns the uniform vector [1/n],
    zero iterations and the stop reason ["iters"].  The bound on [eps] keeps
    the starting residual [eps + 1] of line 49 above [eps]. *)
Theorem pageRank_zero_iters link_mat dangle_vec damp eps :
  let n := length dangle_vec in
  (1 <= n)%nat ->
  shape link_mat = (n, n) ->
  (0 <= damp <= 1)%Qc -> (0 <= eps)%Qc -> (eps < Qc_of_Z (2 ^ 53))%Qc ->
  Solver.pageRank link_mat dangle_vec damp eps 0 =
  Some (Ok (Vec.uniform n, (eps + 1)%Qc, 0, "iters"%string)).
Proof.
  intros n Hn Hshape Hdamp Heps Hsmall.
  rewrite pageRank_checked by done.
  change (Z.to_nat 0) with 0%nat. cbn [Solver.while_true].
  unfold Solver.loop_pass. cbn [Solver.residual Solver.iters Solver.r].
  rewrite sentinel_small by done.
  rewrite bool_decide_eq_false_2 by apply Qc_not_succ_le.
  rewrite bool_decide_eq_true_2 by done.
  by rewrite norm_check_uniform by done.
Qed.

Lemma pageRank_zero_iters_witness :
  Solver.pageRank example_mat [0; 0; 0] Solver.default_damp Solver.default_eps 0 =
  Some (Ok (Vec.uniform 3, (Solver.default_eps + 1)%Qc, 0, "iters"%string)).
Proof.
  apply (pageRank_zero_iters example_mat [0; 0; 0]).
  - simpl. lia.
  - reflexivity.
  - by vm_compute.
  - by vm_compute.
  - by vm_compute.
Defined.

(** The graph without links in exact arithmetic.  With every node dangling
    lines 62-64 rebuild [u] from [u]: the first iterate is the uniform
    vector, the residual is 0 and the loop stops after one iteration.  The
    program computes this iterate in [float32], where [1/n], the products
    and the sums are rounded, and tests the residual against [eps = 1e-7],
    the size of one rounding error: the lemma does not tell how many
    iterations the program itself runs on such a graph. *)
Lemma no_links_exact n :
  (1 <= n)%nat ->
  Solver.pageRank (no_links n).1 (no_links n).2
    Solver.default_damp Solver.default_eps Solver.default_max_iters =
  Some (Ok (Vec.uniform n, 0%Qc, 1, "residual"%string)).
Proof.
  intros Hn.
  rewrite pageRank_checked; [| by simpl; rewrite length_replicate | done..].
  simpl length. rewrite length_replicate.
  rewrite no_links_run by done.
  by rewrite norm_check_uniform by done.
Qed.

(** C9: the residual test comes before the iteration cap.  Whenever
    [pageRank] returns with both [residual <= eps] and
    [iters = max_iters], the two tests holding together at the top of the
    pass that broke the loop, the stop reason is ["residual"]. *)
Theorem residual_stop_first link_mat dangle_vec damp eps max_iters
    rk res it stop :
  Solver.pageRank link_mat dangle_vec damp eps max_iters =
    Some (Ok (rk, res, it, stop)) ->
  (res <= eps)%Qc -> it = max_iters ->
  stop = "residual"%string.
Proof.
  intros Hrun Hres _.
  apply pageRank_Ok_inv, while_true_outcome in Hrun as [[? _]|[_ [? _]]]; done.
Qed.

(** With [max_iters = 1] the graph without links reaches residual 0 on the
    last iteration allowed. *)
Lemma residual_stop_first_witness :
  Solver.pageRank (no_links 2).1 (no_links 2).2
    Solver.default_damp Solver.default_eps 1 =
    Some (Ok (Vec.uniform 2, 0%Qc, 1, "residual"%string)) /\
  "residual"%string = "residual"%string.
Proof.
  assert (Solver.pageRank (no_links 2).1 (no_links 2).2
            Solver.default_damp Solver.default_eps 1 =
          Some (Ok (Vec.uniform 2, 0%Qc, 1, "residual"%string))) as Hrun.
  { vm_compute. reflexivity. }
  split; [exact Hrun|].
  apply (residual_stop_first _ _ _ _ _ _ _ _ _ Hrun).
  - by vm_compute.
  - reflexivity.
Defined.

(** ** Mass conservation *)

Section MassFacts.
Local Open Scope Qc_scope.
Local Arguments Vec.sum : simpl never.
Import Solver.
Implicit Types (v w : list Qc) (f g : nat -> Qc).

Lemma sum_app v w : Vec.sum (v ++ w) = Vec.sum v + Vec.sum w.
Proof.
  induction v as [|x v IH]; simpl.
  - rewrite sum_nil. ring.
  - rewrite !sum_cons, IH. ring.
Qed.

Lemma sum_upto_S n f : Vec.sum_upto (S n) f = Vec.sum_upto n f + f n.
Proof.
  unfold Vec.sum_upto. rewrite seq_S, fmap_app, sum_app. simpl.
  rewrite sum_cons, sum_nil. ring.
Qed.

Lemma sum_upto_ext n f g :
  (forall c, (c < n)%nat -> f c = g c) -> Vec.sum_upto n f = Vec.sum_upto n g.
Proof.
  induction n as [|n IH]; intros Hfg; [done|].
  rewrite !sum_upto_S, IH, Hfg by (intros; auto with lia). done.
Qed.

Lemma sum_upto_plus n f g :
  Vec.sum_upto n (fun c => f c + g c) = Vec.sum_upto n f + Vec.sum_upto n g.
Proof.
  induction n as [|n IH].
  - unfold Vec.sum_upto. simpl. rewrite sum_nil. ring.
  - rewrite !sum_upto_S, IH. ring.
Qed.

Lemma sum_upto_zero n : Vec.sum_upto n (fun _ => 0) = 0.
Proof.
  induction n as [|n IH]; [done|]. rewrite sum_upto_S, IH. ring.
Qed.

(** A sum with one term that is not zero. *)
Lemma sum_upto_single n j x f :
  (j < n)%nat ->
  Vec.sum_upto n (fun c => (if decide (j = c) then x else 0) * f c) = x * f j.
Proof.
  induction n as [|n IH]; intros Hj; [lia|].
  rewrite sum_upto_S. destruct (decide (j = n)) as [->|Hne].
  - rewrite (sum_upto_ext n _ (fun _ => 0)), sum_upto_zero; [ring|].
    intros c Hc. rewrite decide_False by lia. ring.
  - rewrite IH by lia. ring.
Qed.

(** A vector sums as its entries read by index. *)
Lemma sum_as_sum_upto v : Vec.sum v = Vec.sum_upto (length v) (Vec.get v).
Proof.
  unfold Vec.sum_upto. induction v as [|x v IH]; [done|].
  simpl length. cbn [seq]. rewrite fmap_cons, !sum_cons, <- fmap_S_seq.
  rewrite <- list_fmap_compose, IH. done.
Qed.

Lemma dot_as_sum_upto (d : list Z) v :
  length d = length v ->
  Vec.dot d v =
  Vec.sum_upto (length v) (fun c => Qc_of_Z (default 0%Z (d !! c)) * Vec.get v c).
Proof.
  unfold Vec.sum_upto, Vec.dot. revert v.
  induction d as [|a d IH]; intros [|x v] Hlen; simplify_eq/=; [done|].
  rewrite <- fmap_S_seq, <- list_fmap_compose, !sum_cons, IH by done. done.
Qed.

(** The weighted ranks of the stored entries, gathered by column. *)
Lemma entries_by_column sh es v :
  Forall (fun '(_, j, _) => (j < length v)%nat) es ->
  Vec.sum ((fun '(_, j, w) => w * Vec.get v j) <$> es) =
  Vec.sum_upto (length v) (fun c => Sp.colsum (Sparse sh es) c * Vec.get v c).
Proof.
  unfold Sp.colsum. simpl entries.
  induction 1 as [|[[i j] w] es Hj _ IH].
  - rewrite fmap_nil, sum_nil.
    rewrite (sum_upto_ext _ _ (fun _ => 0)), sum_upto_zero; [done|].
    intros c _. rewrite fmap_nil, sum_nil. ring.
  - rewrite fmap_cons, sum_cons, IH.
    rewrite <- (sum_upto_single (length v) j w (Vec.get v)) by done.
    rewrite <- sum_upto_plus. apply sum_upto_ext; intros c _.
    rewrite fmap_cons, sum_cons. ring.
Qed.

(** The entries of the product sum to the weighted ranks of the stored
    entries. *)
Lemma sum_matvec_fold x es y :
  Forall (fun '(i, _, _) => (i < length y)%nat) es ->
  Vec.sum (foldl (fun y '(i, j, w) => Sp.add_at i (w * Vec.get x j) y) y es) =
  Vec.sum y + Vec.sum ((fun '(_, j, w) => w * Vec.get x j) <$> es).
Proof.
  intros Hes. revert y Hes.
  induction es as [|[[i j] w] es IH]; intros y Hes.
  - simpl. rewrite sum_nil. ring.
  - pose proof (Forall_inv Hes) as Hi. apply Forall_inv_tail in Hes.
    simpl in Hi. cbn [foldl].
    rewrite IH by (by rewrite length_add_at).
    rewrite sum_add_at by done. rewrite fmap_cons, sum_cons. ring.
Qed.

Lemma length_matvec_fold x es y :
  length (foldl (fun y '(i, j, w) => Sp.add_at i (w * Vec.get x j) y) y es)
  = length y.
Proof.
  revert y. induction es as [|[[i j] w] es IH]; intros y; [done|].
  cbn [foldl]. by rewrite IH, length_add_at.
Qed.

Lemma length_matvec M x : length (Sp.matvec M x) = fst (shape M).
Proof. unfold Sp.matvec. by rewrite length_matvec_fold, length_replicate. Qed.

(** Signs. *)
Lemma get_nonneg v j : Forall (Qcle 0) v -> 0 <= Vec.get v j.
Proof.
  intros Hv. unfold Vec.get. destruct (v !! j) as [x|] eqn:Hx; [|done].
  simpl. by eapply (proj1 (Forall_lookup _ _)).
Qed.

Lemma scale_nonneg c v :
  0 <= c -> Forall (Qcle 0) v -> Forall (Qcle 0) (Vec.scale c v).
Proof.
  intros Hc Hv. unfold Vec.scale. apply Forall_fmap.
  eapply Forall_impl; [|exact Hv]. intros x Hx. simpl.
  by apply Qcmult_nonneg_nonneg.
Qed.

Lemma add_nonneg v w :
  Forall (Qcle 0) v -> Forall (Qcle 0) w -> Forall (Qcle 0) (Vec.add v w).
Proof.
  unfold Vec.add. intros Hv. revert w.
  induction Hv as [|x v Hx _ IH]; intros w Hw; [done|].
  destruct Hw as [|y w Hy Hw]; [done|]. simpl.
  constructor; [by apply Qcplus_nonneg_nonneg|by apply IH].
Qed.

Lemma dot_nonneg (d : list Z) v :
  is_flags d -> Forall (Qcle 0) v -> 0 <= Vec.dot d v.
Proof.
  unfold Vec.dot. intros Hd. revert v.
  induction Hd as [|a d Ha _ IH]; intros v Hv; [done|].
  destruct Hv as [|x v Hx Hv]; [done|]. simpl. rewrite sum_cons.
  apply Qcplus_nonneg_nonneg; [|by apply IH].
  destruct Ha as [->| ->].
  - rewrite Qc_of_Z_0. by rewrite Qcmult_0_l.
  - rewrite Qc_of_Z_1. by rewrite Qcmult_1_l.
Qed.

Lemma matvec_nonneg M x :
  Forall (fun '(_, _, w) => 0 <= w) (entries M) ->
  Forall (Qcle 0) x -> Forall (Qcle 0) (Sp.matvec M x).
Proof.
  intros Hes Hx. unfold Sp.matvec.
  assert (Forall (Qcle 0) (replicate (fst (shape M)) 0)) as Hy
    by by apply Forall_replicate.
  revert Hy. generalize (replicate (fst (shape M)) 0).
  induction Hes as [|[[i j] w] es Hw _ IH]; intros y Hy; [done|].
  cbn [foldl]. apply IH. unfold Sp.add_at. apply Forall_alter; [done|].
  intros a _ Ha. apply Qcplus_nonneg_nonneg; [done|].
  apply Qcmult_nonneg_nonneg; [done|by apply get_nonneg].
Qed.
End MassFacts.

Section Stochastic.
Local Open Scope Qc_scope.
Local Arguments Vec.sum : simpl never.
Import Solver.

(** A column whose stored entries are all zero sums to zero. *)
Lemma colsum_zero_column (es : list (nat * nat * Qc)) (c : nat) :
  Forall (fun '(_, j, w) => j = c -> w = 0) es ->
  Vec.sum ((fun '(_, j, w) => if decide (j = c) then w else 0) <$> es) = 0.
Proof.
  induction 1 as [|[[i j] w] es Hw _ IH]; [done|].
  rewrite fmap_cons, sum_cons, IH. case_decide; [|ring].
  rewrite Hw by done. ring.
Qed.

Variable M : sparse.
Variable dangle_vec : list Z.
Hypothesis Hst : stochastic M dangle_vec.

Lemma stochastic_flags : is_flags dangle_vec.
Proof.
  destruct Hst as (_ & _ & Hcols). apply Forall_lookup. intros c d Hd.
  destruct (Hcols c) as [[Hc _]|[Hc _]];
    [by eapply lookup_lt_Some| |]; simplify_eq; auto.
Qed.

(** In each column the flag and the column sum add up to 1. *)
Lemma stochastic_column c :
  (c < length dangle_vec)%nat ->
  Qc_of_Z (default 0%Z (dangle_vec !! c)) + Sp.colsum M c = 1.
Proof.
  destruct Hst as (_ & _ & Hcols). intros Hc.
  destruct (Hcols c Hc) as [[-> Hzero]|[-> ->]]; simpl.
  - rewrite Qc_of_Z_1. unfold Sp.colsum.
    rewrite colsum_zero_column by done. ring.
  - rewrite Qc_of_Z_0. ring.
Qed.

(** The mass at the dangling nodes and the mass the matrix passes on make
    up the whole mass. *)
Lemma mass_balance x :
  length x = length dangle_vec ->
  Vec.dot dangle_vec x + Vec.sum (Sp.matvec M x) = Vec.sum x.
Proof.
  intros Hlen. destruct Hst as (Hshape & Hent & _).
  unfold Sp.matvec. rewrite sum_matvec_fold, sum_zeros.
  - rewrite (entries_by_column (shape M)).
    + rewrite dot_as_sum_upto, (sum_as_sum_upto x) by done.
      rewrite Qcplus_0_l, <- sum_upto_plus.
      apply sum_upto_ext; intros c Hc.
      change (Sp.colsum (Sparse (shape M) (entries M)) c)
        with (Sp.colsum M c).
      rewrite <- Qcmult_plus_distr_l, stochastic_column by lia. ring.
    + eapply Forall_impl; [|exact Hent]. intros [[i j] w] (_ & Hj & _). lia.
  - rewrite length_replicate, Hshape. simpl.
    eapply Forall_impl; [|exact Hent]. by intros [[i j] w] (Hi & _ & _).
Qed.
End Stochastic.

(** On stochastic input the vector of lines 62-64 is a probability
    distribution. *)
Lemma unnormalised_distribution link_mat dangle_vec damp r_old :
  let n := length dangle_vec in
  let v := Solver.unnormalised link_mat dangle_vec damp (Vec.uniform n) r_old in
  (1 <= n)%nat ->
  (0 <= damp <= 1)%Qc ->
  stochastic link_mat dangle_vec ->
  length r_old = n ->
  distribution r_old ->
  length v = n /\ distribution v.
Proof.
  intros n v Hn [Hd0 Hd1] Hst Hlen [Hpos Hsum].
  pose proof (stochastic_flags _ _ Hst) as Hflags.
  pose proof Hst as (Hshape & Hent & _).
  assert (Forall (Qcle 0) (Vec.uniform n)) as Hu.
  { apply Forall_replicate, Qcdiv_nonneg; [done|apply Qc_of_nat_nonneg]. }
  assert (Forall (Qcle 0) (Sp.matvec link_mat r_old)) as Hmv.
  { apply matvec_nonneg; [|done].
    eapply Forall_impl; [|exact Hent]. by intros [[i j] w] (_ & _ & Hw). }
  assert (length (Vec.add
            (Vec.scale (damp * Vec.dot dangle_vec r_old) (Vec.uniform n))
            (Vec.scale (1 - damp) (Vec.uniform n))) = n) as Hl1.
  { by rewrite length_add, length_scale, length_uniform
      by by rewrite !length_scale. }
  split; [|split].
  - unfold v, Solver.unnormalised.
    by rewrite length_add, Hl1
      by by rewrite Hl1, length_scale, length_matvec, Hshape.
  - unfold v, Solver.unnormalised. repeat apply add_nonneg.
    + apply scale_nonneg; [|done].
      apply Qcmult_nonneg_nonneg; [done|by apply dot_nonneg].
    + apply scale_nonneg; [|done].
      apply (proj1 (Qcle_minus_iff damp 1)) in Hd1. exact Hd1.
    + by apply scale_nonneg.
  - unfold v, Solver.unnormalised.
    rewrite sum_add
      by by rewrite Hl1, length_scale, length_matvec, Hshape.
    rewrite sum_add by by rewrite !length_scale.
    rewrite !sum_scale, sum_uniform by lia.
    pose proof (mass_balance _ _ Hst r_old Hlen) as Hbal.
    rewrite Hsum in Hbal.
    replace (Vec.sum (Sp.matvec link_mat r_old))
      with (1 - Vec.dot dangle_vec r_old)%Qc by (rewrite <- Hbal; ring).
    ring.
Qed.

(** C10: the normalisation of line 65 never divides by zero on stochastic
    input.  For [n >= 1] nodes, [damp] in [0, 1], a matrix and flags that
    meet the loader's contract ([stochastic]) and a probability distribution
    [r_old], the vector that lines 62-64 build has no negative entry and has
    L1 norm exactly 1, so that its norm is not zero. *)
Theorem unnormalised_mass_one link_mat dangle_vec damp r_old :
  let n := length dangle_vec in
  let v := Solver.unnormalised link_mat dangle_vec damp (Vec.uniform n) r_old in
  (1 <= n)%nat ->
  (0 <= damp <= 1)%Qc ->
  stochastic link_mat dangle_vec ->
  length r_old = n ->
  distribution r_old ->
  Forall (Qcle 0) v /\ Vec.norm1 v = 1%Qc /\ Vec.norm1 v <> 0%Qc.
Proof.
  intros n v Hn Hdamp Hst Hlen Hdist.
  destruct (unnormalised_distribution link_mat dangle_vec damp r_old
              Hn Hdamp Hst Hlen Hdist) as (_ & Hpos & Hsum).
  fold n in Hpos, Hsum. fold v in Hpos, Hsum.
  assert (Vec.norm1 v = 1%Qc) as Hnorm by by rewrite norm1_nonneg.
  split; [done|]. split; [done|]. by rewrite Hnorm.
Qed.

(** Mass conservation: on stochastic input every iterate is a probability
    distribution, and the check of line 70 never fails. *)
Section Conservation.
Local Open Scope Qc_scope.
Import Solver.
Variable link_mat : sparse.
Variable dangle_vec : list Z.
Variables damp eps : Qc.
Variable max_iters : Z.
Hypothesis Hn : (1 <= length dangle_vec)%nat.
Hypothesis Hdamp : 0 <= damp <= 1.
Hypothesis Hst : stochastic link_mat dangle_vec.

Lemma update_distribution rk :
  length rk = length dangle_vec -> distribution rk ->
  length (update link_mat dangle_vec damp (Vec.uniform (length dangle_vec)) rk)
  = length dangle_vec /\
  distribution
    (update link_mat dangle_vec damp (Vec.uniform (length dangle_vec)) rk).
Proof.
  intros Hlen Hdist. unfold update.
  destruct (unnormalised_distribution link_mat dangle_vec damp rk
              Hn Hdamp Hst Hlen Hdist) as (Hl & Hpos & Hsum).
  by rewrite norm1_nonneg, Hsum, div_one.
Qed.

(** The norm of line 65 is 1, not 0: line 67 does not raise. *)
Lemma update_nonzero rk :
  length rk = length dangle_vec -> distribution rk ->
  Vec.norm1 (unnormalised link_mat dangle_vec damp
               (Vec.uniform (length dangle_vec)) rk) <> 0.
Proof.
  intros Hlen Hdist.
  destruct (unnormalised_distribution link_mat dangle_vec damp rk
              Hn Hdamp Hst Hlen Hdist) as (Hl & Hpos & Hsum).
  by rewrite norm1_nonneg, Hsum.
Qed.

Lemma while_true_distribution fuel s res :
  length (r s) = length dangle_vec -> distribution (r s) ->
  while_true link_mat dangle_vec damp eps max_iters
    (Vec.uniform (length dangle_vec)) fuel s = Some res ->
  exists rk rs it stop,
    res = Ok (rk, rs, it, stop) /\
    length rk = length dangle_vec /\ distribution rk.
Proof.
  revert s. induction fuel as [|fuel IH]; intros s Hlen Hdist; [done|].
  cbn [while_true].
  destruct (loop_pass _ _ _ _ _ _ s) as [[s'|out]|e] eqn:Hp.
  - apply loop_pass_continue in Hp as (_ & _ & ->).
    destruct (update_distribution (r s) Hlen Hdist) as [Hlen' Hdist'].
    by apply IH.
  - intros ?; simplify_eq.
    apply loop_pass_break in Hp as [[-> _]|[-> _]]; by eexists _, _, _, _.
  - apply loop_pass_Raise in Hp as (_ & _ & _ & Hz).
    rewrite divides_by_zero_false in Hz; [done|]. by apply update_nonzero.
Qed.

Lemma pageRank_stochastic :
  shape link_mat = (length dangle_vec, length dangle_vec) ->
  0 <= eps -> (0 <= max_iters)%Z ->
  exists rk res it stop,
    pageRank link_mat dangle_vec damp eps max_iters
    = Some (Ok (rk, res, it, stop)) /\
    length rk = length dangle_vec /\ distribution rk.
Proof.
  intros Hshape Heps Hm. rewrite pageRank_checked by done.
  set (u := Vec.uniform (length dangle_vec)).
  destruct (while_true_stops link_mat dangle_vec damp eps max_iters u
              (LoopState u u (sentinel eps) 0)) as [out Hrun]; [done|].
  simpl iters in Hrun. rewrite Z.sub_0_r in Hrun. rewrite Hrun.
  apply while_true_distribution in Hrun
    as (rk & res & it & stop & -> & Hlen & Hpos & Hsum); simpl.
  - exists rk, res, it, stop. unfold norm_check.
    rewrite norm1_nonneg, Hsum by done.
    replace (1 - 1) with 0 by ring. by rewrite Qcabs_pos.
  - apply length_uniform.
  - split; [|by apply sum_uniform].
    apply Forall_replicate, Qcdiv_nonneg; [done|apply Qc_of_nat_nonneg].
Qed.
End Conservation.

(** The worked example of the docstring meets the contract. *)
Lemma example_stochastic : stochastic example_mat [0; 0; 0].
Proof.
  split; [done|]. split.
  - repeat constructor; simpl; lia || done.
  - intros [|[|[|c]]] Hc; simpl in Hc; try lia; right; split; try done;
      by apply Qc_is_canon.
Qed.

Lemma unnormalised_mass_one_witness :
  let v := Solver.unnormalised example_mat [0; 0; 0] Solver.default_damp
             (Vec.uniform 3) (Vec.uniform 3) in
  Forall (Qcle 0) v /\ Vec.norm1 v = 1%Qc /\ Vec.norm1 v <> 0%Qc.
Proof.
  apply (unnormalised_mass_one example_mat [0; 0; 0] Solver.default_damp
           (Vec.uniform 3)).
  - simpl. lia.
  - by vm_compute.
  - exact example_stochastic.
  - reflexivity.
  - split; [by repeat constructor|]. by apply Qc_is_canon.
Defined.

(** C8: on the worked example ([n = 3], [m = 4], links 0 -> 1, 0 -> 2,
    1 -> 2, 2 -> 0), which the loader turns into [example_mat] with no
    dangling node, [pageRank] with [damp = 0.85] and the default [eps] and
    [max_iters] stops with the reason ["residual"], and in the vector it
    returns page 2 has the strictly highest rank and page 1 the strictly
    lowest. *)
Theorem worked_example :
  Loader.readLinksFile Loader.example_file = Ok (3, example_mat, [0; 0; 0]) /\
  exists rk res it,
    Solver.pageRank example_mat [0; 0; 0]
      Solver.default_damp Solver.default_eps Solver.default_max_iters =
      Some (Ok (rk, res, it, "residual"%string)) /\
    length rk = 3%nat /\
    (Vec.get rk 0 < Vec.get rk 2)%Qc /\
    (Vec.get rk 1 < Vec.get rk 2)%Qc /\
    (Vec.get rk 1 < Vec.get rk 0)%Qc.
Proof.
  split; [vm_compute; reflexivity|].
  do 3 eexists. split; [vm_compute; reflexivity|].
  repeat split; by vm_compute.
Qed.

(** ** The loader, line by line *)

Section LoaderFacts.
Import Loader.

Lemma setitem_nat {A} ln (a : list A) (k : nat) v :
  setitem ln a (Z.of_nat k) v =
  if decide (k < length a)%nat then Ok (<[k := v]> a) else Raise (IndexError ln).
Proof.
  unfold setitem. case_decide.
  - by rewrite bool_decide_eq_true_2, Nat2Z.id by lia.
  - by rewrite !bool_decide_eq_false_2 by lia.
Qed.

Lemma setitem_Ok {A} ln (a a' : list A) k v :
  setitem ln a k v = Ok a' ->
  (- Z.of_nat (length a) <= k < Z.of_nat (length a))%Z /\
  a' = <[Z.to_nat (k `mod` Z.of_nat (length a)) := v]> a.
Proof.
  unfold setitem. repeat case_bool_decide; intros ?; simplify_eq.
  - split; [lia|]. by rewrite Z.mod_small by lia.
  - split; [lia|]. do 2 f_equal.
    rewrite <- (Z.mod_add k 1) by lia. rewrite Z.mod_small; lia.
Qed.

Lemma take_insert_snoc {A} (a : list A) k v :
  (k < length a)%nat -> take (S k) (<[k := v]> a) = take k a ++ [v].
Proof.
  intros Hk. rewrite (take_S_r _ _ v) by by apply list_lookup_insert_eq.
  by rewrite take_insert_ge by lia.
Qed.

Lemma int_Ok ln x z : int ln x = Ok z <-> parse_field x = Some z.
Proof. destruct x; simpl; split; intros ?; by simplify_eq. Qed.

Lemma as_int32_Ok ln x z : as_int32 ln x = Ok z <-> parse_dest x = Some z.
Proof.
  unfold as_int32, parse_dest. destruct x as [d|]; simpl; [|done].
  case_bool_decide; split; intros ?; by simplify_eq.
Qed.

Lemma as_int32_Raise ln x e :
  as_int32 ln x = Raise e -> e = ValueError ln \/ e = OverflowError ln.
Proof.
  unfold as_int32. destruct x as [d|]; simpl.
  - case_bool_decide; intros ?; simplify_eq. by right.
  - intros ?; simplify_eq. by left.
Qed.

(** An integer that is an [int32] is stored as it is. *)
Lemma wrap32_small z : - 2 ^ 31 <= z < 2 ^ 31 -> wrap32 z = z.
Proof. intros Hz. unfold wrap32. rewrite Z.mod_small; lia. Qed.

(** The inner loop: the destinations all parse, and the three arrays gain
    the line's entries at the next free positions. *)
Lemma fill_Ok m source outdeg rest i st st' :
  sized m st ->
  fill source outdeg rest i st = Ok st' ->
  (links_seen st + i <= m)%nat ->
  exists ds,
    mapM parse_dest rest = Some ds /\
    sized m st' /\
    links_seen st' = links_seen st /\ dangle st' = dangle st /\
    (links_seen st + i + length rest <= m)%nat /\
    take (links_seen st + i + length rest) (sources st') =
      take (links_seen st + i) (sources st) ++ replicate (length rest) source /\
    take (links_seen st + i + length rest) (links st') =
      take (links_seen st + i) (links st) ++ ds /\
    take (links_seen st + i + length rest) (normadj st') =
      take (links_seen st + i) (normadj st)
      ++ replicate (length rest) (1 / Vec.Qc_of_nat outdeg)%Qc.
Proof.
  revert i st. induction rest as [|x rest IH]; intros i st (Hs & Hl & Hn) Hfill Hle.
  - simpl in Hfill. simplify_eq. exists []. simpl.
    rewrite !Nat.add_0_r, !app_nil_r. by repeat split.
  - cbn [fill] in Hfill.
    rewrite (setitem_nat 89), Hs in Hfill.
    destruct (decide (links_seen st + i < m)%nat) as [Hlt|]; [|done].
    cbn [mbind PyResult_bind] in Hfill.
    destruct (as_int32 90 x) as [d|] eqn:Hd; [|done].
    cbn [mbind PyResult_bind] in Hfill.
    rewrite (setitem_nat 90), Hl, decide_True in Hfill by done.
    cbn [mbind PyResult_bind] in Hfill.
    rewrite (setitem_nat 91), Hn, decide_True in Hfill by done.
    cbn [mbind PyResult_bind] in Hfill.
    apply as_int32_Ok in Hd.
    apply IH in Hfill as (ds & Hds & Hsz & Hseen & Hdg & Hle' & Hsrc & Hlnk & Hnrm);
      cbn [sources links normadj dangle links_seen] in *;
      [| by unfold sized; cbn [sources links normadj]; rewrite !length_insert
       | lia].
    exists (d :: ds). cbn [mapM]. rewrite Hd, Hds. simpl length.
    replace (links_seen st + i + S (length rest))%nat
      with (links_seen st + S i + length rest)%nat by lia.
    replace (links_seen st + S i)%nat with (S (links_seen st + i)) in * by lia.
    rewrite take_insert_snoc in Hsrc by lia.
    rewrite take_insert_snoc in Hlnk by lia.
    rewrite take_insert_snoc in Hnrm by lia.
    rewrite Hsrc, Hlnk, Hnrm, <- !(assoc_L (++)). simpl.
    destruct Hsz as (? & ? & ?). repeat split; done || lia.
Qed.

Lemma length_mark dg row : length (mark dg row) = length dg.
Proof. unfold mark. destruct row.2; [done|]. apply length_insert. Qed.

Lemma length_foldl_mark rows dg : length (foldl mark dg rows) = length dg.
Proof.
  revert dg. induction rows as [|row rows IH]; intros dg; [done|].
  simpl. by rewrite IH, length_mark.
Qed.

(** The body of the loop: the line parses, and the arrays gain what the
    line holds. *)
Lemma read_line_Ok m l st st' :
  sized m st -> (links_seen st <= m)%nat ->
  read_line l st = Ok st' ->
  exists row,
    parse_line l = Some row /\
    sized m st' /\
    links_seen st' = (links_seen st + length row.2)%nat /\
    (links_seen st' <= m)%nat /\
    take (links_seen st') (sources st') =
      take (links_seen st) (sources st) ++ line_sources row /\
    take (links_seen st') (links st') =
      take (links_seen st) (links st) ++ line_links row /\
    take (links_seen st') (normadj st') =
      take (links_seen st) (normadj st) ++ line_normadj row /\
    dangle st' = mark (dangle st) row /\
    (row.2 <> [] ->
     - Z.of_nat (length (dangle st)) <= row.1 < Z.of_nat (length (dangle st)))%Z.
Proof.
  intros Hsz Hle Hread. destruct l as [|x dests]; [done|].
  cbn [read_line] in Hread.
  destruct (int 84 x) as [s|] eqn:Hs; [|done]. apply int_Ok in Hs.
  cbn [mbind PyResult_bind] in Hread. cbn [parse_line]. rewrite Hs.
  case_bool_decide as Hdeg.
  - destruct (setitem 87 (dangle st) s 0%Z) as [dg|] eqn:Hdg; [|done].
    cbn [mbind PyResult_bind] in Hread.
    destruct (fill _ _ _ _ _) as [st1|] eqn:Hfill; [|done].
    cbn [mbind PyResult_bind] in Hread. simplify_eq.
    apply (fill_Ok m) in Hfill
      as (ds & Hds & (? & ? & ?) & Hseen & Hdg' & Hle' & Hsrc & Hlnk & Hnrm);
      cbn [sources links normadj dangle links_seen] in *; [|done|lia].
    apply setitem_Ok in Hdg as [Hrange ->].
    rewrite Nat.add_0_r in *. rewrite Hseen in *.
    exists (s, ds). rewrite Hds.
    pose proof (length_mapM _ _ _ Hds) as Hlen.
    unfold line_sources, line_links, line_normadj, weight, mark.
    cbn [fst snd sources links normadj dangle links_seen].
    rewrite <- Hlen.
    destruct ds as [|d ds]; [simpl in Hlen; lia|].
    repeat split; done || lia.
  - assert (dests = []) as -> by (destruct dests; [done|simpl in Hdeg; lia]).
    simplify_eq. exists (s, []). simpl.
    unfold line_sources, line_links, line_normadj, mark. simpl.
    rewrite Nat.add_0_r, !app_nil_r. by repeat split; try apply Hsz.
Qed.

(** The loop over the lines. *)
Lemma read_lines_Ok m ls st st' :
  sized m st -> (links_seen st <= m)%nat ->
  read_lines ls st = Ok st' ->
  exists rows,
    mapM parse_line ls = Some rows /\
    sized m st' /\
    links_seen st' = (links_seen st + length (rows ≫= line_links))%nat /\
    (links_seen st' <= m)%nat /\
    take (links_seen st') (sources st') =
      take (links_seen st) (sources st) ++ (rows ≫= line_sources) /\
    take (links_seen st') (links st') =
      take (links_seen st) (links st) ++ (rows ≫= line_links) /\
    take (links_seen st') (normadj st') =
      take (links_seen st) (normadj st) ++ (rows ≫= line_normadj) /\
    dangle st' = foldl mark (dangle st) rows /\
    Forall (fun row : Z * list Z => row.2 <> [] ->
              (- Z.of_nat (length (dangle st)) <= row.1
               < Z.of_nat (length (dangle st)))%Z) rows.
Proof.
  revert st. induction ls as [|l ls IH]; intros st Hsz Hle Hread.
  - simpl in Hread. simplify_eq. exists []. simpl.
    rewrite Nat.add_0_r, !app_nil_r. by repeat split; try apply Hsz.
  - cbn [read_lines] in Hread.
    destruct (read_line l st) as [st1|] eqn:Hl; [|done].
    cbn [mbind PyResult_bind] in Hread.
    apply (read_line_Ok m) in Hl
      as (row & Hrow & Hsz1 & Hseen1 & Hle1 & Hsrc1 & Hlnk1 & Hnrm1 & Hdg1 & Hr1);
      [|done..].
    apply IH in Hread
      as (rows & Hrows & Hsz' & Hseen' & Hle' & Hsrc & Hlnk & Hnrm & Hdg & Hr);
      [|done..].
    exists (row :: rows). cbn [mapM]. rewrite Hrow, Hrows.
    rewrite !bind_cons, length_app.
    rewrite Hsrc, Hlnk, Hnrm, Hsrc1, Hlnk1, Hnrm1, <- !(assoc_L (++)).
    rewrite Hdg, Hdg1. rewrite Hdg1, length_mark in Hr.
    unfold line_links at 1.
    repeat split; try done; try apply Hsz'; [lia|]. by constructor.
Qed.

Lemma int_next_Ok ln f z f' :
  int_next ln f = Ok (z, f') -> f = [Digits z] :: f'.
Proof.
  destruct f as [|[|[z'|] [|? ?]] f'']; simpl; intros ?; by simplify_eq.
Qed.

Lemma np_full_Ok {A} ln (x : A) k a :
  np_full ln x k = Ok a -> (0 <= k)%Z /\ a = replicate (Z.to_nat k) x.
Proof. unfold np_full. case_bool_decide; intros ?; by simplify_eq. Qed.

Lemma np_full_nat {A} ln (x : A) (k : nat) :
  np_full ln x (Z.of_nat k) = Ok (replicate k x).
Proof.
  unfold np_full. by rewrite bool_decide_eq_true_2, Nat2Z.id by lia.
Qed.

(** The matrix built from the three arrays holds the entries of the
    lines, in order. *)
Lemma zip_line_entries (rows : list (Z * list Z)) :
  zip (zip (Z.to_nat <$> (rows ≫= line_links))
           (Z.to_nat <$> (rows ≫= line_sources)))
      (rows ≫= line_normadj)
  = rows ≫= line_entries.
Proof.
  induction rows as [|[s ds] rows IH]; [done|].
  rewrite !bind_cons, !fmap_app.
  unfold line_links at 1, line_sources at 1, line_normadj at 1,
    line_entries at 1. cbn [fst snd].
  rewrite !zip_with_app, IH
    by by rewrite ?length_zip_with, !length_fmap, ?length_replicate; lia.
  f_equal. rewrite fmap_replicate.
  generalize (weight (length ds)) (Z.to_nat s). intros w c.
  induction ds as [|d ds IHds]; [done|]. simpl. f_equal. exact IHds.
Qed.

Lemma coo_matrix_Ok ln data row col n M :
  coo_matrix ln data row col n = Ok M ->
  Forall (fun k => 0 <= k < n)%Z row /\ Forall (fun k => 0 <= k < n)%Z col /\
  M = Sparse (Z.to_nat n, Z.to_nat n)
        (zip (zip (Z.to_nat <$> row) (Z.to_nat <$> col)) data).
Proof.
  unfold coo_matrix.
  destruct (forallb _ row) eqn:Hrow; [|done].
  destruct (forallb _ col) eqn:Hcol; [|done].
  simpl. intros ?; simplify_eq.
  apply Is_true_true, forallb_True in Hrow, Hcol.
  repeat split.
  - eapply Forall_impl; [|exact Hrow]. intros k Hk. by apply bool_decide_unpack in Hk.
  - eapply Forall_impl; [|exact Hcol]. intros k Hk. by apply bool_decide_unpack in Hk.
Qed.

(** What an accepted file is, and what [readLinksFile] returns for it. *)
Lemma readLinksFile_Ok f n M dg :
  readLinksFile f = Ok (n, M, dg) ->
  exists m ls rows,
    f = [Digits n] :: [Digits m] :: ls /\
    (0 <= n)%Z /\
    mapM parse_line ls = Some rows /\
    Z.of_nat (length (rows ≫= line_links)) = m /\
    Forall (fun row : Z * list Z => row.2 <> [] -> 0 <= row.1 < n)%Z rows /\
    Forall (fun row : Z * list Z => Forall (fun d => 0 <= d < n)%Z row.2) rows /\
    M = Sparse (Z.to_nat n, Z.to_nat n) (rows ≫= line_entries) /\
    dg = foldl mark (replicate (Z.to_nat n) 1%Z) rows.
Proof.
  unfold readLinksFile. intros Hread.
  destruct (int_next 75 f) as [[n' f1]|] eqn:Hn; [|done].
  apply int_next_Ok in Hn as ->. cbn [mbind PyResult_bind] in Hread.
  destruct (int_next 76 f1) as [[m ls]|] eqn:Hm; [|done].
  apply int_next_Ok in Hm as ->. cbn [mbind PyResult_bind] in Hread.
  destruct (np_full 78 _ m) as [srcs|] eqn:H1; [|done].
  apply np_full_Ok in H1 as [Hm0 ->]. cbn [mbind PyResult_bind] in Hread.
  destruct (np_full 79 _ m) as [lnks|] eqn:H2; [|done].
  apply np_full_Ok in H2 as [_ ->]. cbn [mbind PyResult_bind] in Hread.
  destruct (np_full 80 _ m) as [nadj|] eqn:H3; [|done].
  apply np_full_Ok in H3 as [_ ->]. cbn [mbind PyResult_bind] in Hread.
  destruct (np_full 81 _ n') as [dngl|] eqn:H4; [|done].
  apply np_full_Ok in H4 as [Hn0 ->]. cbn [mbind PyResult_bind] in Hread.
  destruct (read_lines ls _) as [st|] eqn:Hlines; [|done].
  cbn [mbind PyResult_bind] in Hread.
  apply (read_lines_Ok (Z.to_nat m)) in Hlines
    as (rows & Hrows & (Hs & Hl & Hn) & Hseen & _ & Hsrc & Hlnk & Hnrm & Hdg & Hr);
    cbn [sources links normadj dangle links_seen] in *;
    [| by unfold sized; cbn [sources links normadj]; rewrite !length_replicate
     | lia].
  unfold py_assert in Hread. case_bool_decide as Hassert; [|done].
  cbn [mbind PyResult_bind] in Hread.
  destruct (coo_matrix _ _ _ _ _) as [M'|] eqn:Hcoo; [|done].
  cbn [mbind PyResult_bind] in Hread. simplify_eq.
  rewrite take_ge in Hsrc by lia. rewrite take_ge in Hlnk by lia.
  rewrite take_ge in Hnrm by lia. simpl in Hsrc, Hlnk, Hnrm.
  rewrite Hsrc, Hlnk, Hnrm in Hcoo.
  apply coo_matrix_Ok in Hcoo as (Hrow & Hcol & ->).
  rewrite zip_line_entries. rewrite length_replicate in Hr.
  exists (Z.of_nat (links_seen st)), ls, rows.
  split; [done|]. split; [done|]. split; [done|].
  split; [by rewrite Hseen|]. split; [|split; [|done]].
  - apply Forall_bind in Hcol. apply Forall_lookup. intros i [s ds] Hi Hne.
    simpl in *. eapply (proj1 (Forall_lookup _ _)) in Hcol; [|exact Hi].
    unfold compose, line_sources in Hcol. simpl in Hcol.
    destruct ds as [|d ds]; [done|]. simpl in Hcol. by inversion Hcol.
  - by apply Forall_bind in Hrow.
Qed.

(** *** The flags *)

(** A cleared flag stays cleared. *)
Lemma foldl_mark_cleared rows dg i :
  dg !! i = Some 0%Z -> foldl mark dg rows !! i = Some 0%Z.
Proof.
  revert dg. induction rows as [|[s ds] rows IH]; intros dg Hi; [done|].
  simpl. apply IH. unfold mark. simpl. destruct ds as [|d ds]; [done|].
  destruct (decide (Z.to_nat (s `mod` Z.of_nat (length dg)) = i)) as [<-|Hne].
  - apply list_lookup_insert_eq. by eapply lookup_lt_Some.
  - by rewrite list_lookup_insert_ne.
Qed.

(** The flag of [i] is cleared if a line with a destination has source
    [i]. *)
Lemma foldl_mark_hit rows dg i :
  Forall (fun row : Z * list Z =>
            row.2 <> [] -> 0 <= row.1 < Z.of_nat (length dg))%Z rows ->
  Exists (fun row : Z * list Z => row.2 <> [] /\ row.1 = Z.of_nat i) rows ->
  foldl mark dg rows !! i = Some 0%Z.
Proof.
  intros Hall Hex. revert dg Hall.
  induction Hex as [[s ds] rows [Hne Heq]|[s ds] rows _ IH]; intros dg Hall.
  - simpl in *. subst s. apply foldl_mark_cleared. unfold mark. simpl.
    destruct ds as [|d ds]; [done|].
    pose proof (Forall_inv Hall) as Hs. simpl in Hs. specialize (Hs Hne).
    rewrite Z.mod_small, Nat2Z.id by lia.
    apply list_lookup_insert_eq. lia.
  - simpl. apply IH. rewrite length_mark. by eapply Forall_inv_tail.
Qed.

(** It is left as it was if no such line has source [i]. *)
Lemma foldl_mark_miss rows dg i :
  Forall (fun row : Z * list Z =>
            row.2 <> [] -> 0 <= row.1 < Z.of_nat (length dg))%Z rows ->
  ~ Exists (fun row : Z * list Z => row.2 <> [] /\ row.1 = Z.of_nat i) rows ->
  foldl mark dg rows !! i = dg !! i.
Proof.
  intros Hall. revert dg Hall.
  induction rows as [|[s ds] rows IH]; intros dg Hall Hex; [done|].
  pose proof (Forall_inv Hall) as Hs. apply Forall_inv_tail in Hall.
  simpl in *. rewrite IH.
  - unfold mark. simpl. destruct ds as [|d ds]; [done|].
    specialize (Hs ltac:(done)).
    rewrite Z.mod_small by lia. apply list_lookup_insert_ne.
    intros <-. apply Hex. left. simpl. split; [done|lia].
  - by rewrite length_mark.
  - intros H. apply Hex. by right.
Qed.

(** The stored entries of a column come from the lines with that source
    and a destination. *)
Lemma entries_column rows (n : Z) (c : nat) :
  Forall (fun row : Z * list Z => row.2 <> [] -> 0 <= row.1 < n)%Z rows ->
  Exists (fun '(_, j, _) => j = c) (rows ≫= line_entries) <->
  Exists (fun row : Z * list Z => row.2 <> [] /\ row.1 = Z.of_nat c) rows.
Proof.
  intros Hall. rewrite !list.Exists_exists. split.
  - intros ([[i j] w] & Hin & ->).
    apply list_elem_of_bind in Hin as ([s ds] & Hin & Hrow).
    unfold line_entries in Hin. simpl in Hin.
    apply list_elem_of_fmap in Hin as (d & ? & Hd). simplify_eq.
    exists (s, ds). split; [done|]. simpl.
    assert (ds <> []) as Hne by (intros ->; by apply not_elem_of_nil in Hd).
    split; [done|].
    eapply (proj1 (list.Forall_forall _ _)) in Hall; [|exact Hrow].
    simpl in Hall. specialize (Hall Hne). lia.
  - intros ([s ds] & Hrow & Hne & Hs). simpl in *. subst s.
    destruct ds as [|d ds]; [done|].
    exists (Z.to_nat d, c, weight (length (d :: ds))). split; [|done].
    apply list_elem_of_bind. exists (Z.of_nat c, d :: ds). split; [|done].
    unfold line_entries. simpl. rewrite Nat2Z.id. by left.
Qed.
End LoaderFacts.

(** The loader returns the graph without links for a file that declares [n] pages and
    no link, and has no further line. *)
Lemma no_links_loaded n :
  Loader.readLinksFile [[Loader.Digits (Z.of_nat n)]; [Loader.Digits 0]] =
  Ok (Z.of_nat n, (no_links n).1, (no_links n).2).
Proof.
  unfold Loader.readLinksFile.
  cbn [Loader.int_next Loader.int mbind PyResult_bind].
  rewrite (np_full_nat 78 _ 0), (np_full_nat 79 _ 0), (np_full_nat 80 _ 0).
  rewrite np_full_nat. cbn [mbind PyResult_bind Loader.read_lines].
  unfold Loader.coo_matrix. simpl. by rewrite Nat2Z.id.
Qed.

(** C5: for every file the loader accepts and every node [i] in [0, n), the
    flag the loader returns for [i] is set (equal to 1) if and only if no
    stored triple has source [i], that is no entry of the matrix lies in
    column [i]. *)
Theorem dangle_iff_no_triple f n M dg i :
  Loader.readLinksFile f = Ok (n, M, dg) ->
  (0 <= Z.of_nat i < n)%Z ->
  dg !! i = Some 1 <-> Forall (fun '(_, j, _) => j <> i) (entries M).
Proof.
  intros Hok Hi.
  apply readLinksFile_Ok in Hok
    as (m & ls & rows & -> & Hn & Hrows & Hm & Hsrc & Hdst & -> & ->).
  simpl entries.
  assert (Forall (fun row : Z * list Z => row.2 <> [] ->
            0 <= row.1 < Z.of_nat (length (replicate (Z.to_nat n) 1%Z)))%Z rows)
    as Hsrc'.
  { rewrite length_replicate, Z2Nat.id by done. exact Hsrc. }
  destruct (decide (Exists (fun row : Z * list Z =>
              row.2 <> [] /\ row.1 = Z.of_nat i) rows)) as [Hex|Hex].
  - rewrite foldl_mark_hit by done. split; [done|]. intros Hall.
    apply (entries_column rows n i Hsrc) in Hex.
    apply list.Exists_exists in Hex as ([[r j] w] & Hin & ->).
    eapply (proj1 (list.Forall_forall _ _)) in Hall; [|exact Hin]. done.
  - rewrite foldl_mark_miss by done.
    rewrite lookup_replicate_2 by lia. split; [|done]. intros _.
    apply list.Forall_forall. intros [[r j] w] Hin Hj. apply Hex.
    apply (entries_column rows n i Hsrc). apply list.Exists_exists.
    by exists (r, j, w).
Qed.

Lemma dangle_iff_no_triple_witness :
  [1; 0; 1] !! 1%nat = Some 1 <->
  Forall (fun '(_, j, _) => j <> 1%nat) [(2%nat, 1%nat, Loader.weight 1)].
Proof.
  apply (dangle_iff_no_triple
           [[Loader.Digits 3]; [Loader.Digits 1];
            [Loader.Digits 1; Loader.Digits 2]] 3
           (Sparse (3%nat, 3%nat) [(2%nat, 1%nat, Loader.weight 1)])
           [1; 0; 1] 1).
  - vm_compute. reflexivity.
  - lia.
Defined.

(** ** Column sums of the matrix the loader builds *)

Section ColumnFacts.
Local Open Scope Qc_scope.
Local Arguments Vec.sum : simpl never.
Import Loader.

Lemma sum_const_fmap {A} (l : list A) (a : Qc) :
  Vec.sum ((fun _ => a) <$> l) = Vec.Qc_of_nat (length l) * a.
Proof.
  induction l as [|x l IH].
  - rewrite fmap_nil, sum_nil.
    change (Vec.Qc_of_nat (length [])) with (Qc_of_Z 0).
    rewrite Qc_of_Z_0. ring.
  - rewrite fmap_cons, sum_cons, IH. simpl length. rewrite Qc_of_nat_S. ring.
Qed.

Lemma weight_total k : (0 < k)%nat -> Vec.Qc_of_nat k * weight k = 1.
Proof.
  intros Hk. unfold weight. pose proof (Qc_of_nat_pos k Hk) as Hpos.
  field. intros E. rewrite E in Hpos. by apply Qclt_not_eq in Hpos.
Qed.

(** A line adds 1 to the column of its source if it has a destination,
    and nothing to the other columns. *)
Lemma line_colsum (c : nat) l s ds :
  parse_line l = Some (s, ds) ->
  (ds <> [] -> 0 <= s)%Z ->
  Vec.sum ((fun '(_, j, w) => if decide (j = c) then w else 0)
             <$> line_entries (s, ds))
  = if has_source (Z.of_nat c) l then 1 else 0.
Proof.
  intros Hparse Hs. destruct l as [|x dests]; [done|].
  cbn [parse_line] in Hparse.
  destruct x as [s'|]; [|done]. cbn [parse_field mbind option_bind] in Hparse.
  destruct (mapM parse_dest dests) as [ds'|] eqn:Hds; [|done].
  cbn [mbind option_bind] in Hparse. simplify_eq.
  pose proof (length_mapM _ _ _ Hds) as Hlen.
  unfold line_entries. cbn [fst snd]. rewrite <- list_fmap_compose.
  unfold compose. rewrite sum_const_fmap.
  destruct dests as [|x dests], ds as [|d ds]; simplify_eq/=.
  - change (Vec.Qc_of_nat 0) with (Qc_of_Z 0). rewrite Qc_of_Z_0. ring.
  - specialize (Hs ltac:(done)). case_bool_decide as Hc.
    + subst s. rewrite Nat2Z.id, decide_True by done.
      rewrite <- Hlen. apply (weight_total (S (length dests))). lia.
    + rewrite decide_False by lia. ring.
Qed.

Lemma lines_from_cons s l ls :
  lines_from s (l :: ls) =
  ((if has_source s l then 1 else 0) + lines_from s ls)%nat.
Proof.
  unfold lines_from. rewrite filter_cons.
  destruct (has_source s l); by case_decide.
Qed.

(** The stored weights of a column sum to the number of lines with that
    source and a destination. *)
Lemma colsum_lines (n : Z) (c : nat) ls rows :
  mapM parse_line ls = Some rows ->
  Forall (fun row : Z * list Z => row.2 <> [] -> 0 <= row.1 < n)%Z rows ->
  Sp.colsum (Sparse (Z.to_nat n, Z.to_nat n) (rows ≫= line_entries)) c
  = Vec.Qc_of_nat (lines_from (Z.of_nat c) ls).
Proof.
  unfold Sp.colsum. simpl entries. intros Hparse%mapM_Some_1.
  induction Hparse as [|l [s ds] ls rows Hl _ IH]; intros Hall.
  - simpl. rewrite sum_nil. symmetry. apply Qc_of_Z_0.
  - pose proof (Forall_inv Hall) as Hs. apply Forall_inv_tail in Hall.
    simpl in Hs.
    rewrite bind_cons, fmap_app, sum_app, IH by done.
    rewrite (line_colsum c l s ds Hl) by (intros Hne; apply Hs in Hne; lia).
    rewrite lines_from_cons. destruct (has_source (Z.of_nat c) l).
    + change (1 + lines_from (Z.of_nat c) ls)%nat
        with (S (lines_from (Z.of_nat c) ls)).
      rewrite Qc_of_nat_S. ring.
    + simpl. ring.
Qed.

(** A line with source [s] and a destination shows in the parsed lines. *)
Lemma lines_from_pos (c : nat) ls rows :
  mapM parse_line ls = Some rows ->
  Exists (fun row : Z * list Z => row.2 <> [] /\ row.1 = Z.of_nat c) rows ->
  (0 < lines_from (Z.of_nat c) ls)%nat.
Proof.
  intros Hparse%mapM_Some_1.
  induction Hparse as [|l [s ds] ls rows Hl _ IH]; intros Hex.
  - by apply Exists_nil in Hex.
  - rewrite lines_from_cons. apply Exists_cons in Hex as [[Hne Hs]|Hex].
    + simpl in *. subst s. destruct l as [|[s'|] dests]; try done.
      cbn [parse_line parse_field mbind option_bind] in Hl.
      destruct (mapM parse_dest dests) as [ds'|] eqn:Hds; [|done].
      cbn [mbind option_bind] in Hl. simplify_eq.
      pose proof (length_mapM _ _ _ Hds) as Hlen.
      destruct dests as [|x dests]; [by destruct ds|].
      simpl. rewrite bool_decide_eq_true_2 by done. lia.
    + specialize (IH Hex). lia.
Qed.

Lemma has_source_parse (c : Z) l s ds :
  parse_line l = Some (s, ds) ->
  has_source c l = true <-> ds <> [] /\ s = c.
Proof.
  intros Hparse. destruct l as [|[s'|] dests]; try done.
  cbn [parse_line parse_field mbind option_bind] in Hparse.
  destruct (mapM parse_dest dests) as [ds'|] eqn:Hds; [|done].
  cbn [mbind option_bind] in Hparse. simplify_eq.
  pose proof (length_mapM _ _ _ Hds) as Hlen.
  destruct dests as [|x dests], ds as [|d ds]; simplify_eq/=.
  - split; [done|]. by intros [? _].
  - rewrite bool_decide_eq_true. split; [by intros ->|by intros [_ ->]].
Qed.

Lemma filter_column_all (c : nat) (es : list (nat * nat * Qc)) :
  Forall (fun e => e.1.2 = c) es -> filter (fun e => e.1.2 = c) es = es.
Proof.
  induction 1 as [|e es He _ IH]; [done|].
  by rewrite filter_cons_True, IH.
Qed.

Lemma filter_column_none (c : nat) (es : list (nat * nat * Qc)) :
  Forall (fun e => e.1.2 <> c) es -> filter (fun e => e.1.2 = c) es = [].
Proof.
  induction 1 as [|e es He _ IH]; [done|].
  by rewrite filter_cons_False.
Qed.

(** No line with source [c] and a destination: column [c] is empty. *)
Lemma column_of_no_line (n : Z) (c : nat) ls rows :
  mapM parse_line ls = Some rows ->
  Forall (fun row : Z * list Z => row.2 <> [] -> 0 <= row.1 < n)%Z rows ->
  lines_from (Z.of_nat c) ls = 0%nat ->
  filter (fun e => e.1.2 = c) (rows ≫= line_entries) = [].
Proof.
  intros Hparse Hall Hnone. apply filter_column_none.
  apply list.Forall_forall. intros [[i j] w] Hin Hj. simpl in Hj.
  assert (Exists (fun '(_, j, _) => j = c) (rows ≫= line_entries)) as Hex.
  { apply list.Exists_exists. by exists (i, j, w). }
  apply (entries_column rows n c Hall) in Hex.
  apply (lines_from_pos c ls rows Hparse) in Hex. lia.
Qed.

(** One line with source [c] and a destination: column [c] holds the
    entries of that line. *)
Lemma column_of_single_line (n : Z) (c : nat) ls rows :
  mapM parse_line ls = Some rows ->
  Forall (fun row : Z * list Z => row.2 <> [] -> 0 <= row.1 < n)%Z rows ->
  lines_from (Z.of_nat c) ls = 1%nat ->
  exists ds,
    ds <> [] /\
    filter (fun e => e.1.2 = c) (rows ≫= line_entries)
    = line_entries (Z.of_nat c, ds).
Proof.
  intros Hparse. pose proof Hparse as Hparse2%mapM_Some_1.
  revert Hparse.
  induction Hparse2 as [|l [s ds] ls rows Hl Hrest IH]; intros Hparse Hall Hone.
  - done.
  - pose proof (Forall_inv Hall) as Hs. apply Forall_inv_tail in Hall.
    simpl in Hs. apply mapM_Some_2 in Hrest.
    rewrite lines_from_cons in Hone. rewrite bind_cons, list.filter_app.
    destruct (has_source (Z.of_nat c) l) eqn:Hhs.
    + apply (has_source_parse _ _ _ _ Hl) in Hhs as [Hne ->].
      exists ds. split; [done|].
      rewrite (column_of_no_line n c ls rows) by (done || lia).
      rewrite app_nil_r. apply filter_column_all.
      unfold line_entries. apply Forall_fmap, Forall_true. intros d. simpl.
      apply Nat2Z.id.
    + destruct (IH Hrest Hall) as (ds' & Hne & Hfilter); [lia|].
      exists ds'. split; [done|]. rewrite Hfilter.
      rewrite filter_column_none; [done|].
      destruct ds as [|d0 ds]; [by constructor|].
      unfold line_entries. apply Forall_fmap, Forall_true. intros d. simpl.
      intros Hc.
      assert (has_source (Z.of_nat c) l = true) as Hcontra; [|congruence].
      apply (has_source_parse _ _ _ _ Hl). split; [done|].
      specialize (Hs ltac:(done)). lia.
Qed.
End ColumnFacts.

(** C2, on its counterexample: the file with 3 pages, 3 links and the lines
    [0, 1, 2] and [0, 1] is accepted, page 0 is not dangling, and the
    weights of the triples with source 0 sum to 2. *)
Lemma weights_duplicate_source :
  exists M dg,
    Loader.readLinksFile
      [ [Loader.Digits 3]; [Loader.Digits 3];
        [Loader.Digits 0; Loader.Digits 1; Loader.Digits 2];
        [Loader.Digits 0; Loader.Digits 1] ] = Ok (3, M, dg) /\
    dg !! 0%nat = Some 0 /\
    Sp.colsum M 0 = (1 + 1)%Qc /\ Sp.colsum M 0 <> 1%Qc.
Proof.
  do 2 eexists. split; [vm_compute; reflexivity|].
  split; [done|]. split; [by apply Qc_is_canon|].
  intros H. by apply (f_equal Qcanon.this) in H.
Qed.

(** C2, amended: for every file the loader accepts and every node [s] that
    is marked non-dangling, if no more than one line with a destination has
    source [s], the weights of the stored triples with source [s] sum
    to 1, each of them being 1 over the number of those triples. *)
Theorem weights_sum_to_one f n M dg s :
  Loader.readLinksFile f = Ok (n, M, dg) ->
  (0 <= Z.of_nat s < n)%Z ->
  dg !! s = Some 0 ->
  (Loader.lines_from (Z.of_nat s) (drop 2 f) <= 1)%nat ->
  Sp.colsum M s = 1%Qc /\
  Forall (fun '(_, j, w) => j = s -> w = Loader.weight (Sp.colcount M s))
    (entries M).
Proof.
  intros Hok Hs Hflag Hone.
  apply readLinksFile_Ok in Hok
    as (m & ls & rows & -> & Hn & Hrows & Hm & Hsrc & Hdst & -> & ->).
  change (drop 2 (?a :: ?b :: ls)) with ls in Hone.
  assert (0 < Loader.lines_from (Z.of_nat s) ls)%nat as Hpos.
  { apply (lines_from_pos s ls rows Hrows).
    destruct (decide (Exists (fun row : Z * list Z =>
                row.2 <> [] /\ row.1 = Z.of_nat s) rows)) as [Hex|Hex]; [done|].
    rewrite foldl_mark_miss in Hflag; [| |done].
    - rewrite lookup_replicate_2 in Hflag by lia. done.
    - by rewrite length_replicate, Z2Nat.id. }
  assert (Loader.lines_from (Z.of_nat s) ls = 1%nat) as Hline by lia.
  split.
  - rewrite (colsum_lines n s ls rows), Hline by done. apply Qc_of_Z_1.
  - destruct (column_of_single_line n s ls rows Hrows Hsrc Hline)
      as (ds & Hne & Hcol).
    unfold Sp.colcount. simpl entries. rewrite Hcol.
    apply list.Forall_forall. intros [[i j] w] Hin ->.
    assert ((i, s, w) ∈ Loader.line_entries (Z.of_nat s, ds)) as Hin'.
    { rewrite <- Hcol. by apply list_elem_of_filter. }
    unfold Loader.line_entries in *. rewrite length_fmap.
    apply list_elem_of_fmap in Hin' as (d & ? & _). by simplify_eq/=.
Qed.

Lemma weights_sum_to_one_witness :
  Sp.colsum example_mat 0 = 1%Qc /\
  Forall (fun '(_, j, w) => j = 0%nat ->
            w = Loader.weight (Sp.colcount example_mat 0))
    (entries example_mat).
Proof.
  apply (weights_sum_to_one Loader.example_file 3 example_mat [0; 0; 0] 0).
  - vm_compute. reflexivity.
  - lia.
  - reflexivity.
  - vm_compute. lia.
Defined.

(** ** The declared number of links *)

Section CountFacts.
Import Loader.

Lemma total_dests_cons l ls :
  total_dests (l :: ls) = (pred (length l) + total_dests ls)%nat.
Proof. reflexivity. Qed.

Lemma parse_line_length l row :
  parse_line l = Some row -> pred (length l) = length row.2.
Proof.
  destruct l as [|x dests]; [done|]. cbn [parse_line].
  destruct (parse_field x) as [s|]; [|done]. cbn [mbind option_bind].
  destruct (mapM parse_dest dests) as [ds|] eqn:Hds; [|done].
  cbn [mbind option_bind]. intros ?; simplify_eq. simpl.
  by apply length_mapM in Hds.
Qed.

(** The lines read hold [total_dests] destinations. *)
Lemma total_dests_parsed ls rows :
  mapM parse_line ls = Some rows ->
  total_dests ls = length (rows ≫= line_links).
Proof.
  intros Hparse%mapM_Some_1.
  induction Hparse as [|l row ls rows Hl _ IH]; [done|].
  rewrite total_dests_cons, bind_cons, length_app, IH.
  by rewrite (parse_line_length l row).
Qed.

(** With room for the destinations that remain, the inner loop raises
    only on a destination that is not an integer or does not fit a C
    [long]. *)
Lemma fill_Raise m source outdeg rest i st e :
  sized m st ->
  (links_seen st + i + length rest <= m)%nat ->
  fill source outdeg rest i st = Raise e ->
  e = ValueError 90 \/ e = OverflowError 90.
Proof.
  revert i st. induction rest as [|x rest IH]; intros i st (Hs & Hl & Hn) Hle Hfill;
    [done|].
  simpl length in Hle. cbn [fill] in Hfill.
  rewrite (setitem_nat 89), Hs, decide_True in Hfill by lia.
  cbn [mbind PyResult_bind] in Hfill.
  destruct (as_int32 90 x) as [d|e'] eqn:Hd;
    cbn [mbind PyResult_bind] in Hfill;
    [|simplify_eq; by apply as_int32_Raise in Hd].
  rewrite (setitem_nat 90), Hl, decide_True in Hfill by lia.
  cbn [mbind PyResult_bind] in Hfill.
  rewrite (setitem_nat 91), Hn, decide_True in Hfill by lia.
  cbn [mbind PyResult_bind] in Hfill.
  apply IH in Hfill; [done| |simpl; lia].
  by unfold sized; cbn [sources links normadj]; rewrite !length_insert.
Qed.

Lemma read_line_Raise m l st e :
  sized m st ->
  (links_seen st + pred (length l) <= m)%nat ->
  read_line l st = Raise e ->
  line_error e.
Proof.
  intros Hsz Hle Hread. unfold line_error.
  destruct l as [|x dests]; [simpl in Hread; simplify_eq; auto|].
  cbn [read_line] in Hread.
  destruct x as [s|]; [|simpl in Hread; simplify_eq; auto].
  cbn [int mbind PyResult_bind] in Hread.
  case_bool_decide; [|done].
  unfold setitem in Hread.
  repeat case_bool_decide; cbn [mbind PyResult_bind] in Hread;
    [| |simplify_eq; auto].
  - destruct (fill _ _ _ _ _) as [st1|e'] eqn:Hfill; [done|].
    cbn [mbind PyResult_bind] in Hread. simplify_eq.
    apply (fill_Raise m) in Hfill; [auto|done|simpl in *; lia].
  - destruct (fill _ _ _ _ _) as [st1|e'] eqn:Hfill; [done|].
    cbn [mbind PyResult_bind] in Hread. simplify_eq.
    apply (fill_Raise m) in Hfill; [auto|done|simpl in *; lia].
Qed.

Lemma read_lines_Raise m ls st e :
  sized m st ->
  (links_seen st + total_dests ls <= m)%nat ->
  read_lines ls st = Raise e ->
  line_error e.
Proof.
  revert st. induction ls as [|l ls IH]; intros st Hsz Hle Hread; [done|].
  rewrite total_dests_cons in Hle. cbn [read_lines] in Hread.
  destruct (read_line l st) as [st1|e'] eqn:Hl;
    cbn [mbind PyResult_bind] in Hread.
  - apply (read_line_Ok m) in Hl
      as (row & Hrow & Hsz1 & Hseen1 & _); [|done|lia].
    apply parse_line_length in Hrow.
    apply IH in Hread; [done|done|lia].
  - simplify_eq. eapply read_line_Raise; [done| |done]. lia.
Qed.

(** *** Lines that are well formed

    When every line parses and every source of a line with a destination
    indexes a flag, the loop fails only for want of room in the arrays. *)

Lemma setitem_in_range {A} ln (a : list A) k v :
  (- Z.of_nat (length a) <= k < Z.of_nat (length a))%Z ->
  exists a', setitem ln a k v = Ok a' /\ length a' = length a.
Proof.
  intros Hk. unfold setitem. repeat case_bool_decide; try lia;
    eexists; (split; [done|]); apply length_insert.
Qed.

Lemma fill_room m source outdeg rest i st :
  sized m st ->
  (links_seen st + i + length rest <= m)%nat ->
  is_Some (mapM parse_dest rest) ->
  exists st', fill source outdeg rest i st = Ok st'.
Proof.
  revert i st.
  induction rest as [|x rest IH]; intros i st (Hs & Hl & Hn) Hle [ds Hds];
    [by eexists|].
  simpl length in Hle. cbn [fill].
  rewrite (setitem_nat 89), Hs, decide_True by lia.
  cbn [mbind PyResult_bind].
  cbn [mapM] in Hds. destruct (parse_dest x) as [d|] eqn:Hd; [|done].
  cbn [mbind option_bind] in Hds.
  destruct (mapM parse_dest rest) as [ds'|] eqn:Hrest; [|done].
  apply (as_int32_Ok 90) in Hd. rewrite Hd. cbn [mbind PyResult_bind].
  rewrite (setitem_nat 90), Hl, decide_True by lia.
  cbn [mbind PyResult_bind].
  rewrite (setitem_nat 91), Hn, decide_True by lia.
  cbn [mbind PyResult_bind].
  apply IH; [|simpl; lia|by eexists].
  by unfold sized; cbn [sources links normadj]; rewrite !length_insert.
Qed.

Lemma fill_overflow m source outdeg rest i st :
  sized m st ->
  (links_seen st + i <= m)%nat ->
  (m < links_seen st + i + length rest)%nat ->
  is_Some (mapM parse_dest rest) ->
  fill source outdeg rest i st = Raise (IndexError 89).
Proof.
  revert i st.
  induction rest as [|x rest IH]; intros i st (Hs & Hl & Hn) Hle Hlt [ds Hds];
    [simpl in Hlt; lia|].
  simpl length in Hlt. cbn [fill]. rewrite (setitem_nat 89), Hs.
  destruct (decide (links_seen st + i < m)%nat) as [Hk|Hk]; [|done].
  cbn [mbind PyResult_bind].
  cbn [mapM] in Hds. destruct (parse_dest x) as [d|] eqn:Hd; [|done].
  cbn [mbind option_bind] in Hds.
  destruct (mapM parse_dest rest) as [ds'|] eqn:Hrest; [|done].
  apply (as_int32_Ok 90) in Hd. rewrite Hd. cbn [mbind PyResult_bind].
  rewrite (setitem_nat 90), Hl, decide_True by lia.
  cbn [mbind PyResult_bind].
  rewrite (setitem_nat 91), Hn, decide_True by lia.
  cbn [mbind PyResult_bind].
  apply IH; [|simpl; lia|simpl; lia|by eexists].
  by unfold sized; cbn [sources links normadj]; rewrite !length_insert.
Qed.

Lemma parse_line_inv l row :
  parse_line l = Some row ->
  exists dests,
    l = Digits row.1 :: dests /\ mapM parse_dest dests = Some row.2.
Proof.
  destruct l as [|[s|] dests]; try done.
  cbn [parse_line parse_field mbind option_bind].
  destruct (mapM parse_dest dests) as [ds|] eqn:Hds; [|done].
  cbn [mbind option_bind]. intros ?; simplify_eq. by exists dests.
Qed.

Lemma read_line_room m l row st :
  sized m st ->
  parse_line l = Some row ->
  (row.2 <> [] ->
   - Z.of_nat (length (dangle st)) <= row.1 < Z.of_nat (length (dangle st)))%Z ->
  (links_seen st + length row.2 <= m)%nat ->
  exists st', read_line l st = Ok st'.
Proof.
  intros Hsz Hparse Hsrc Hle.
  apply parse_line_inv in Hparse as (dests & -> & Hds).
  pose proof (length_mapM _ _ _ Hds) as Hlen.
  cbn [read_line int mbind PyResult_bind].
  case_bool_decide as Hdeg; [|by eexists].
  destruct (setitem_in_range 87 (dangle st) row.1 0%Z) as (dg & -> & _).
  { apply Hsrc. intros E. rewrite E in Hlen. simpl in Hlen. lia. }
  cbn [mbind PyResult_bind].
  edestruct (fill_room m row.1 (length dests) dests 0) as [st' ->];
    [exact Hsz| |by eexists|by eexists].
  cbn [links_seen]. lia.
Qed.

Lemma read_line_overflow m l row st :
  sized m st ->
  parse_line l = Some row ->
  (row.2 <> [] ->
   - Z.of_nat (length (dangle st)) <= row.1 < Z.of_nat (length (dangle st)))%Z ->
  (links_seen st <= m)%nat ->
  (m < links_seen st + length row.2)%nat ->
  read_line l st = Raise (IndexError 89).
Proof.
  intros Hsz Hparse Hsrc Hle Hlt.
  apply parse_line_inv in Hparse as (dests & -> & Hds).
  pose proof (length_mapM _ _ _ Hds) as Hlen.
  cbn [read_line int mbind PyResult_bind].
  rewrite bool_decide_eq_true_2 by lia.
  destruct (setitem_in_range 87 (dangle st) row.1 0%Z) as (dg & -> & _).
  { apply Hsrc. intros E. rewrite E in Hlt. simpl in Hlt. lia. }
  cbn [mbind PyResult_bind].
  rewrite (fill_overflow m); [done|exact Hsz| | |by eexists];
    cbn [links_seen]; lia.
Qed.

Lemma read_lines_room m ls rows st :
  sized m st ->
  mapM parse_line ls = Some rows ->
  Forall (fun row : Z * list Z => row.2 <> [] ->
            (- Z.of_nat (length (dangle st)) <= row.1
             < Z.of_nat (length (dangle st)))%Z) rows ->
  (links_seen st + total_dests ls <= m)%nat ->
  exists st', read_lines ls st = Ok st'.
Proof.
  intros Hsz Hparse%mapM_Some_1. revert st Hsz.
  induction Hparse as [|l row ls rows Hl _ IH]; intros st Hsz Hall Hle;
    [by eexists|].
  pose proof (Forall_inv Hall) as Hs. apply Forall_inv_tail in Hall.
  rewrite total_dests_cons, (parse_line_length l row Hl) in Hle.
  cbn [read_lines].
  destruct (read_line_room m l row st Hsz Hl Hs) as [st1 Hst1]; [lia|].
  rewrite Hst1. cbn [mbind PyResult_bind].
  apply (read_line_Ok m) in Hst1
    as (row' & Hrow' & Hsz1 & Hseen1 & _ & _ & _ & _ & Hdg1 & _); [|done|lia].
  simplify_eq. apply IH; [done| |lia].
  by rewrite Hdg1, length_mark.
Qed.

Lemma read_lines_overflow m ls rows st :
  sized m st ->
  mapM parse_line ls = Some rows ->
  Forall (fun row : Z * list Z => row.2 <> [] ->
            (- Z.of_nat (length (dangle st)) <= row.1
             < Z.of_nat (length (dangle st)))%Z) rows ->
  (links_seen st <= m)%nat ->
  (m < links_seen st + total_dests ls)%nat ->
  read_lines ls st = Raise (IndexError 89).
Proof.
  intros Hsz Hparse%mapM_Some_1. revert st Hsz.
  induction Hparse as [|l row ls rows Hl _ IH]; intros st Hsz Hall Hle Hlt.
  - unfold total_dests in Hlt. simpl in Hlt. lia.
  - pose proof (Forall_inv Hall) as Hs. apply Forall_inv_tail in Hall.
    rewrite total_dests_cons, (parse_line_length l row Hl) in Hlt.
    cbn [read_lines].
    destruct (decide (links_seen st + length row.2 <= m)%nat) as [Hroom|Hroom].
    + destruct (read_line_room m l row st Hsz Hl Hs Hroom) as [st1 Hst1].
      rewrite Hst1. cbn [mbind PyResult_bind].
      apply (read_line_Ok m) in Hst1
        as (row' & Hrow' & Hsz1 & Hseen1 & Hle1 & _ & _ & _ & Hdg1 & _);
        [|done|lia].
      simplify_eq. apply IH; [done| |done|lia].
      by rewrite Hdg1, length_mark.
    + by rewrite (read_line_overflow m l row st) by (done || lia).
Qed.
End CountFacts.

(** On well-formed lines, an edge count that does not match is reported by
    the index error of line 89 when the lines hold more destinations than
    declared, and by the assertion error of line 93 when they hold fewer. *)
Lemma edge_count_mismatch_exception n m ls rows :
  (0 <= n)%Z -> (0 <= m)%Z ->
  mapM Loader.parse_line ls = Some rows ->
  Forall (fun row : Z * list Z => row.2 <> [] -> - n <= row.1 < n)%Z rows ->
  let f := [Loader.Digits n] :: [Loader.Digits m] :: ls in
  ((m < Z.of_nat (Loader.total_dests ls))%Z ->
     Loader.readLinksFile f = Raise (IndexError 89)) /\
  ((Z.of_nat (Loader.total_dests ls) < m)%Z ->
     Loader.readLinksFile f = Raise (AssertionError 93)).
Proof.
  intros Hn Hm Hrows Hall f.
  assert (Loader.sized (Z.to_nat m)
            (Loader.Arrays (replicate (Z.to_nat m) 0%Z)
               (replicate (Z.to_nat m) 0%Z) (replicate (Z.to_nat m) 0%Qc)
               (replicate (Z.to_nat n) 1%Z) 0)) as Hsz.
  { by unfold Loader.sized; cbn; rewrite !length_replicate. }
  assert (Forall (fun row : Z * list Z => row.2 <> [] ->
            (- Z.of_nat (length (replicate (Z.to_nat n) 1%Z)) <= row.1
             < Z.of_nat (length (replicate (Z.to_nat n) 1%Z)))%Z) rows)
    as Hall'.
  { by rewrite length_replicate, Z2Nat.id. }
  unfold f, Loader.readLinksFile.
  cbn [Loader.int_next Loader.int mbind PyResult_bind].
  unfold Loader.np_full. rewrite !bool_decide_eq_true_2 by done.
  cbn [mbind PyResult_bind]. split; intros Hcount.
  - rewrite (read_lines_overflow (Z.to_nat m) ls rows);
      cbn [Loader.dangle Loader.links_seen]; done || lia.
  - destruct (read_lines_room (Z.to_nat m) ls rows _ Hsz Hrows Hall')
      as [st Hst]; [cbn [Loader.links_seen]; lia|].
    rewrite Hst. cbn [mbind PyResult_bind].
    apply (read_lines_Ok (Z.to_nat m)) in Hst
      as (rows' & Hrows' & _ & Hseen & _); [|done|cbn; lia].
    cbn [Loader.links_seen] in Hseen.
    rewrite <- (total_dests_parsed _ _ Hrows') in Hseen.
    unfold py_assert. by rewrite bool_decide_eq_false_2 by lia.
Qed.

(** C6: for a file that declares [m] links, if the number of destination
    entries of its lines differs from [m] the loader raises and returns no
    graph; if the two agree the loader raises neither the assertion error
    of line 93 nor the index error of line 89, the two exceptions of an edge
    count that does not match. *)
Theorem edge_count_checked n m ls :
  let f := [Loader.Digits n] :: [Loader.Digits m] :: ls in
  (Z.of_nat (Loader.total_dests ls) <> m ->
     exists e, Loader.readLinksFile f = Raise e) /\
  (Z.of_nat (Loader.total_dests ls) = m ->
     Loader.readLinksFile f <> Raise (AssertionError 93) /\
     Loader.readLinksFile f <> Raise (IndexError 89)).
Proof.
  intros f. split.
  - intros Hne. destruct (Loader.readLinksFile f) as [[[n' M] dg]|e] eqn:Hread;
      [|by eexists].
    apply readLinksFile_Ok in Hread
      as (m' & ls' & rows & Hf & _ & Hrows & Hm & _).
    unfold f in Hf. simplify_eq.
    by rewrite (total_dests_parsed _ _ Hrows) in Hne.
  - intros <-.
    assert (forall e, Loader.readLinksFile f = Raise e ->
              e <> AssertionError 93 /\ e <> IndexError 89) as Hall.
    { intros e. unfold f, Loader.readLinksFile.
      cbn [Loader.int_next Loader.int mbind PyResult_bind].
      rewrite !np_full_nat. cbn [mbind PyResult_bind].
      unfold Loader.np_full.
      case_bool_decide; cbn [mbind PyResult_bind]; [|by intros ?; simplify_eq].
      destruct (Loader.read_lines ls _) as [st|e'] eqn:Hlines;
        cbn [mbind PyResult_bind].
      - apply (read_lines_Ok (Loader.total_dests ls)) in Hlines
          as (rows & Hrows & _ & Hseen & _);
          cbn [Loader.links_seen] in *;
          [| by unfold Loader.sized; cbn; rewrite !length_replicate | lia].
        rewrite <- (total_dests_parsed _ _ Hrows) in Hseen.
        unfold py_assert. rewrite bool_decide_eq_true_2 by (rewrite Hseen; lia).
        cbn [mbind PyResult_bind].
        unfold Loader.coo_matrix.
        destruct (_ && _); cbn [mbind PyResult_bind]; by intros ?; simplify_eq.
      - intros ?; simplify_eq.
        apply (read_lines_Raise (Loader.total_dests ls)) in Hlines
          as [->|[->|[->|[->| ->]]]]; cbn [Loader.links_seen]; try done; try lia.
        by unfold Loader.sized; cbn; rewrite !length_replicate. }
    split; intros H; by apply Hall in H as [? ?].
Qed.

Lemma edge_count_checked_witness :
  (exists e, Loader.readLinksFile
     [ [Loader.Digits 3]; [Loader.Digits 5];
       [Loader.Digits 0; Loader.Digits 1; Loader.Digits 2] ] = Raise e) /\
  Loader.readLinksFile Loader.example_file <> Raise (AssertionError 93) /\
  Loader.readLinksFile Loader.example_file <> Raise (IndexError 89).
Proof.
  split.
  - apply (edge_count_checked 3 5
             [[Loader.Digits 0; Loader.Digits 1; Loader.Digits 2]]).
    vm_compute. discriminate.
  - apply (edge_count_checked 3 4
             [ [Loader.Digits 0; Loader.Digits 1; Loader.Digits 2];
               [Loader.Digits 1; Loader.Digits 2];
               [Loader.Digits 2; Loader.Digits 0] ]).
    reflexivity.
Defined.

(** C7, on its counterexamples.  A source outside [0, n) on a line without
    destination is accepted: line 86 skips the line.  A destination beyond
    the [int32] range is stored by its low 32 bits: with 2 pages,
    [4294967297 = 2^32 + 1] is taken for page 1 and the file is accepted. *)
Lemma out_of_range_accepted :
  Loader.readLinksFile
    [ [Loader.Digits 3]; [Loader.Digits 0]; [Loader.Digits 7] ]
  = Ok (3, Sparse (3%nat, 3%nat) [], [1; 1; 1]) /\
  Loader.readLinksFile
    [ [Loader.Digits 2]; [Loader.Digits 1];
      [Loader.Digits 0; Loader.Digits 4294967297] ]
  = Ok (2, Sparse (2%nat, 2%nat) [(1%nat, 0%nat, Loader.weight 1)], [0; 1]).
Proof. split; vm_compute; reflexivity. Qed.

(** C7, amended: every file with a line that has at least one destination
    and holds a source outside [0, n) (negative identifiers included) or a
    destination that, reduced to the 32 bits line 90 stores, is outside
    [0, n), makes the loader raise: no graph is returned.  A destination in
    the [int32] range is its own reduction, so that every such destination
    outside [0, n) is refused. *)
Theorem out_of_range_rejected n m ls l src dests :
  l ∈ ls ->
  l = Loader.Digits src :: dests ->
  dests <> [] ->
  (~ (0 <= src < n)%Z \/
   exists d, Loader.Digits d ∈ dests /\ ~ (0 <= Loader.wrap32 d < n)%Z) ->
  exists e,
    Loader.readLinksFile ([Loader.Digits n] :: [Loader.Digits m] :: ls) = Raise e.
Proof.
  intros Hin -> Hne Hbad.
  destruct (Loader.readLinksFile _) as [[[n' M] dg]|e] eqn:Hread; [|by eexists].
  exfalso.
  apply readLinksFile_Ok in Hread
    as (m' & ls' & rows & Hf & _ & Hrows & _ & Hsrc & Hdst & _).
  simplify_eq.
  apply mapM_Some_1 in Hrows.
  apply list_elem_of_lookup in Hin as [i Hi].
  destruct (Forall2_lookup_l _ _ _ _ _ Hrows Hi) as (row & Hrow & Hparse).
  cbn [Loader.parse_line Loader.parse_field mbind option_bind] in Hparse.
  destruct (mapM Loader.parse_dest dests) as [ds|] eqn:Hds; [|done].
  cbn [mbind option_bind] in Hparse. simplify_eq.
  eapply (proj1 (Forall_lookup _ _)) in Hsrc, Hdst; [|exact Hrow..].
  simpl in Hsrc, Hdst.
  destruct Hbad as [Hbad|(d & Hd & Hbad)].
  - apply Hbad, Hsrc. intros ->. apply length_mapM in Hds.
    destruct dests; [done|]. simpl in Hds. lia.
  - apply mapM_Some_1 in Hds.
    apply list_elem_of_lookup in Hd as [j Hj].
    destruct (Forall2_lookup_l _ _ _ _ _ Hds Hj) as (d' & Hd' & Hpd).
    unfold Loader.parse_dest in Hpd. simpl in Hpd.
    case_bool_decide; simplify_eq.
    eapply (proj1 (Forall_lookup _ _)) in Hdst; [|exact Hd']. done.
Qed.

(** A negative source on a line with a destination: numpy clears the flag
    counted from the end, and scipy then refuses the negative index. *)
Lemma out_of_range_rejected_witness :
  exists e,
    Loader.readLinksFile
      [ [Loader.Digits 3]; [Loader.Digits 1];
        [Loader.Digits (-1); Loader.Digits 0] ] = Raise e.
Proof.
  apply (out_of_range_rejected 3 1
           [[Loader.Digits (-1); Loader.Digits 0]]
           [Loader.Digits (-1); Loader.Digits 0] (-1) [Loader.Digits 0]).
  - by left.
  - reflexivity.
  - done.
  - left. lia.
Defined.

(** * Further properties of the solver *)

Section ReturnFacts.
Local Open Scope Qc_scope.
Import Solver.

(** What a returned result tells about the arguments and the loop. *)
Lemma pageRank_Ok_full link_mat dangle_vec damp eps max_iters rk res it stop :
  pageRank link_mat dangle_vec damp eps max_iters = Some (Ok (rk, res, it, stop)) ->
  shape link_mat = (length dangle_vec, length dangle_vec) /\
  0 <= damp <= 1 /\ 0 <= eps /\ (0 <= max_iters)%Z /\
  norm_check rk = true.
Proof.
  unfold pageRank. destruct link_mat as [[rows cols] es]. simpl fst; simpl snd.
  repeat case_bool_decide; simpl negb; cbv iota; try done.
  destruct (while_true _ _ _ _ _ _ _ _) as [[[[[rk' res'] it'] stop']|e']|];
    [|done..].
  destruct (norm_check rk') eqn:Hnorm; [|done].
  intros ?; simplify_eq. by repeat split.
Qed.

(** The loop raises nothing but the [ValueError] of line 67. *)
Lemma while_true_Raise link_mat dangle_vec damp eps max_iters u fuel s e :
  while_true link_mat dangle_vec damp eps max_iters u fuel s = Some (Raise e) ->
  e = ValueError 67.
Proof.
  revert s. induction fuel as [|fuel IH]; intros s; [done|].
  cbn [while_true].
  destruct (loop_pass link_mat dangle_vec damp eps max_iters u s)
    as [[s'|out]|e'] eqn:Hp; [by apply IH|done|].
  intros ?; simplify_eq. by apply loop_pass_Raise in Hp as [-> _].
Qed.

(** What is raised: the assertion error of a precondition that fails, or,
    past the preconditions, the [ValueError] of line 67 or the assertion
    error of line 70. *)
Lemma pageRank_Raise_inv link_mat dangle_vec damp eps max_iters e :
  pageRank link_mat dangle_vec damp eps max_iters = Some (Raise e) ->
  ((e = AssertionError 70 \/ e = ValueError 67) /\
   shape link_mat = (length dangle_vec, length dangle_vec) /\
   0 <= damp <= 1 /\ 0 <= eps /\ (0 <= max_iters)%Z) \/
  (e ∈ [AssertionError 41; AssertionError 42; AssertionError 43;
        AssertionError 44] /\
   ~ (shape link_mat = (length dangle_vec, length dangle_vec) /\
      0 <= damp <= 1 /\ 0 <= eps /\ (0 <= max_iters)%Z)).
Proof.
  unfold pageRank. destruct link_mat as [[rows cols] es]. simpl fst; simpl snd.
  repeat case_bool_decide; simpl negb; cbv iota;
    try (intros ?; simplify_eq; right; split;
         [repeat constructor
         | intros (Hs & [? ?] & ? & ?); simpl in Hs; simplify_eq; done]).
  destruct (while_true _ _ _ _ _ _ _ _)
    as [[[[[rk' res'] it'] stop']|e']|] eqn:Hrun; [| |done].
  - destruct (norm_check rk'); [done|].
    intros ?; simplify_eq. left. split; [by left|]. by repeat split.
  - intros ?; simplify_eq. apply while_true_Raise in Hrun as ->.
    left. split; [by right|]. by repeat split.
Qed.

Section Runs.
Variable link_mat : sparse.
Variable dangle_vec : list Z.
Variables damp eps : Qc.
Variable max_iters : Z.
Variable u : list Qc.

(** The count of iterations only grows, and stays within the cap. *)
Lemma while_true_iters fuel s rk res it stop :
  (iters s <= max_iters)%Z ->
  while_true link_mat dangle_vec damp eps max_iters u fuel s
    = Some (Ok (rk, res, it, stop)) ->
  (iters s <= it <= max_iters)%Z.
Proof.
  revert s. induction fuel as [|fuel IH]; intros s Hle; [done|].
  cbn [while_true].
  destruct (loop_pass link_mat dangle_vec damp eps max_iters u s)
    as [[s'|out]|e] eqn:Hp; [| |done].
  - apply loop_pass_continue in Hp as (_ & Hne & ->). intros Hrun.
    apply IH in Hrun; simpl in *; lia.
  - intros ?; simplify_eq.
    apply loop_pass_break in Hp as [[? _]|[? _]]; simplify_eq; lia.
Qed.

Lemma norm1_ge0 v : 0 <= Vec.norm1 v.
Proof.
  unfold Vec.norm1. apply sum_nonneg, Forall_fmap, Forall_true.
  intros x. apply Qcabs_nonneg.
Qed.

(** The residual is never negative. *)
Lemma while_true_residual fuel s rk res it stop :
  0 <= residual s ->
  while_true link_mat dangle_vec damp eps max_iters u fuel s
    = Some (Ok (rk, res, it, stop)) ->
  0 <= res.
Proof.
  revert s. induction fuel as [|fuel IH]; intros s Hres; [done|].
  cbn [while_true].
  destruct (loop_pass link_mat dangle_vec damp eps max_iters u s)
    as [[s'|out]|e] eqn:Hp; [| |done].
  - apply loop_pass_continue in Hp as (_ & _ & ->).
    apply IH. simpl. apply norm1_ge0.
  - intros ?; simplify_eq.
    by apply loop_pass_break in Hp as [[? _]|[? _]]; simplify_eq.
Qed.

(** The rank vector keeps the length of [u] when the matrix has as many
    rows. *)
Lemma length_update rk :
  fst (shape link_mat) = length u ->
  length (update link_mat dangle_vec damp u rk) = length u.
Proof.
  intros Hrows. unfold update, unnormalised, Vec.div.
  rewrite length_fmap.
  assert (length (Vec.add (Vec.scale (damp * Vec.dot dangle_vec rk) u)
                    (Vec.scale (1 - damp) u)) = length u) as Hl1.
  { by rewrite length_add, length_scale by by rewrite !length_scale. }
  by rewrite length_add, Hl1 by by rewrite Hl1, length_scale, length_matvec.
Qed.

Lemma while_true_length fuel s rk res it stop :
  fst (shape link_mat) = length u ->
  length (r s) = length u ->
  while_true link_mat dangle_vec damp eps max_iters u fuel s
    = Some (Ok (rk, res, it, stop)) ->
  length rk = length u.
Proof.
  intros Hrows. revert s. induction fuel as [|fuel IH]; intros s Hlen; [done|].
  cbn [while_true].
  destruct (loop_pass link_mat dangle_vec damp eps max_iters u s)
    as [[s'|out]|e] eqn:Hp; [| |done].
  - apply loop_pass_continue in Hp as (_ & _ & ->).
    apply IH. simpl. by apply length_update.
  - intros ?; simplify_eq.
    by apply loop_pass_break in Hp as [[? _]|[? _]]; simplify_eq.
Qed.
End Runs.
End ReturnFacts.

(** X1: the number of iterations [pageRank] returns lies between 0 and
    [max_iters], and is at least 1 as soon as [max_iters] is and [eps] is
    below [2^53]: the starting residual [eps + 1] is then above [eps], and
    the first test of the residual does not stop the loop. *)
Theorem pageRank_iterations_bounded link_mat dangle_vec damp eps max_iters
    rk res it stop :
  Solver.pageRank link_mat dangle_vec damp eps max_iters
    = Some (Ok (rk, res, it, stop)) ->
  (0 <= it <= max_iters)%Z /\
  ((1 <= max_iters)%Z -> (eps < Qc_of_Z (2 ^ 53))%Qc -> (1 <= it)%Z).
Proof.
  intros Hrun.
  pose proof (pageRank_Ok_full _ _ _ _ _ _ _ _ _ Hrun) as (_ & _ & _ & Hm & _).
  apply pageRank_Ok_inv in Hrun. split.
  - by apply while_true_iters in Hrun.
  - intros Hone Hsmall. cbn [Solver.while_true] in Hrun.
    destruct (Solver.loop_pass _ _ _ _ _ _ _) as [[s'|out]|e] eqn:Hp; [| |done].
    + apply loop_pass_continue in Hp as (_ & _ & ->).
      apply while_true_iters in Hrun; simpl in *; lia.
    + simplify_eq.
      apply loop_pass_break in Hp as [[_ Hle]|[_ [_ Hit]]]; simpl in *.
      * rewrite sentinel_small in Hle by done.
        by apply Qc_not_succ_le in Hle.
      * lia.
Qed.

Lemma pageRank_iterations_bounded_witness :
  (0 <= 1 <= 5)%Z /\
  ((1 <= 5)%Z -> (Solver.default_eps < Qc_of_Z (2 ^ 53))%Qc -> (1 <= 1)%Z).
Proof.
  apply (pageRank_iterations_bounded (no_links 3).1 (no_links 3).2
           Solver.default_damp Solver.default_eps 5
           (Vec.uniform 3) 0%Qc 1 "residual"%string).
  vm_compute. reflexivity.
Defined.

(** X2: the stop reason [pageRank] returns tells which test broke the
    loop, and nothing else is returned: either it is ["residual"] and the
    residual is between 0 and [eps], or it is ["iters"], the residual is
    above [eps] and the iterations have reached [max_iters]. *)
Theorem stop_reason_cases link_mat dangle_vec damp eps max_iters
    rk res it stop :
  Solver.pageRank link_mat dangle_vec damp eps max_iters
    = Some (Ok (rk, res, it, stop)) ->
  (stop = "residual"%string /\ (0 <= res <= eps)%Qc) \/
  (stop = "iters"%string /\ (eps < res)%Qc /\ it = max_iters).
Proof.
  intros Hrun.
  pose proof (pageRank_Ok_full _ _ _ _ _ _ _ _ _ Hrun) as (_ & _ & Heps & _ & _).
  apply pageRank_Ok_inv in Hrun.
  pose proof Hrun as Hres.
  apply while_true_residual in Hres;
    [|simpl; by apply sentinel_nonneg].
  apply while_true_outcome in Hrun as [[-> Hle]|(-> & Hgt & ->)].
  - by left.
  - right. split; [done|]. split; [|done]. by apply Qcnot_le_lt.
Qed.

Lemma stop_reason_cases_witness :
  ("iters"%string = "residual"%string /\
     (0 <= Solver.default_eps + 1 <= Solver.default_eps)%Qc) \/
  ("iters"%string = "iters"%string /\
     (Solver.default_eps < Solver.default_eps + 1)%Qc /\ 0 = 0).
Proof.
  apply (stop_reason_cases example_mat [0; 0; 0] Solver.default_damp
           Solver.default_eps 0 (Vec.uniform 3)).
  vm_compute. reflexivity.
Defined.

(** X3: the rank vector [pageRank] returns has one entry per node, that is
    the length of [dangle_vec]. *)
Theorem pageRank_rank_length link_mat dangle_vec damp eps max_iters
    rk res it stop :
  Solver.pageRank link_mat dangle_vec damp eps max_iters
    = Some (Ok (rk, res, it, stop)) ->
  length rk = length dangle_vec.
Proof.
  intros Hrun.
  pose proof (pageRank_Ok_full _ _ _ _ _ _ _ _ _ Hrun) as (Hshape & _).
  apply pageRank_Ok_inv, while_true_length in Hrun.
  - by rewrite length_uniform in Hrun.
  - by rewrite Hshape, length_uniform.
  - done.
Qed.

Lemma pageRank_rank_length_witness :
  length (Vec.uniform 3) = length [0; 0; 0].
Proof.
  apply (pageRank_rank_length example_mat [0; 0; 0] Solver.default_damp
           Solver.default_eps 0 (Vec.uniform 3)
           (Solver.default_eps + 1)%Qc 0 "iters"%string).
  vm_compute. reflexivity.
Defined.


(** X5: mass conservation over a whole run.  On a graph with at least one
    node that meets the contract [stochastic], with [damp] in [0, 1],
    [eps >= 0] and [max_iters >= 0], [pageRank] never fails the check of
    line 70: it returns a vector with one entry per node, none negative,
    that sums to 1. *)
Theorem pageRank_conserves_mass link_mat dangle_vec damp eps max_iters :
  (1 <= length dangle_vec)%nat ->
  (0 <= damp <= 1)%Qc -> (0 <= eps)%Qc -> 0 <= max_iters ->
  stochastic link_mat dangle_vec ->
  exists rk res it stop,
    Solver.pageRank link_mat dangle_vec damp eps max_iters
    = Some (Ok (rk, res, it, stop)) /\
    length rk = length dangle_vec /\ distribution rk.
Proof.
  intros Hn Hdamp Heps Hm Hst.
  apply pageRank_stochastic; try done. by destruct Hst as (Hshape & _).
Qed.

Lemma pageRank_conserves_mass_witness :
  exists rk res it stop,
    Solver.pageRank example_mat [0; 0; 0] Solver.default_damp
      Solver.default_eps 3
    = Some (Ok (rk, res, it, stop)) /\
    length rk = length [0; 0; 0] /\ distribution rk.
Proof.
  apply (pageRank_conserves_mass example_mat [0; 0; 0]).
  - simpl. lia.
  - by vm_compute.
  - by vm_compute.
  - lia.
  - exact example_stochastic.
Defined.

Section NoDamping.
Local Open Scope Qc_scope.
Import Solver.

Lemma add_scale_split (a b : Qc) (u : list Qc) :
  a + b = 1 -> Vec.add (Vec.scale a u) (Vec.scale b u) = u.
Proof.
  intros Hab. unfold Vec.add, Vec.scale.
  induction u as [|x u IH]; [done|].
  rewrite !fmap_cons. cbn [zip_with]. rewrite IH. f_equal.
  replace (a * x + b * x) with ((a + b) * x) by ring. rewrite Hab. ring.
Qed.

Lemma add_scale_zero (u v : list Qc) :
  length v = length u -> Vec.add u (Vec.scale 0 v) = u.
Proof.
  unfold Vec.add, Vec.scale. revert v.
  induction u as [|x u IH]; intros [|y v] Hlen; try done.
  rewrite fmap_cons. cbn [zip_with]. rewrite IH by (simpl in Hlen; lia).
  f_equal. ring.
Qed.

(** With [damp = 0] lines 62-64 yield [u], whatever the current vector,
    the links and the flags are. *)
Lemma unnormalised_no_damping link_mat dangle_vec u rk :
  fst (shape link_mat) = length u ->
  unnormalised link_mat dangle_vec 0 u rk = u.
Proof.
  intros Hrows. unfold unnormalised.
  rewrite add_scale_split by ring.
  apply add_scale_zero. by rewrite length_matvec.
Qed.

Lemma loop_pass_no_damping M M' d d' eps max_iters u s :
  fst (shape M) = length u -> fst (shape M') = length u ->
  loop_pass M d 0 eps max_iters u s = loop_pass M' d' 0 eps max_iters u s.
Proof.
  intros HM HM'. unfold loop_pass, divides_by_zero, update.
  by rewrite !unnormalised_no_damping.
Qed.

Lemma while_true_no_damping M M' d d' eps max_iters u fuel s :
  fst (shape M) = length u -> fst (shape M') = length u ->
  while_true M d 0 eps max_iters u fuel s
  = while_true M' d' 0 eps max_iters u fuel s.
Proof.
  intros HM HM'. revert s. induction fuel as [|fuel IH]; intros s; [done|].
  cbn [while_true]. rewrite (loop_pass_no_damping M M' d d') by done.
  destruct (loop_pass M' d' 0 eps max_iters u s) as [[s'|out]|e]; auto.
Qed.

Lemma pageRank_same_without_damping M M' d d' eps max_iters :
  length d = length d' -> shape M = shape M' ->
  pageRank M d 0 eps max_iters = pageRank M' d' 0 eps max_iters.
Proof.
  intros Hlen Hshape. unfold pageRank. rewrite <- Hshape, <- Hlen.
  destruct (bool_decide (fst (shape M) = snd (shape M))
            && bool_decide (snd (shape M) = length d)) eqn:Hsq; [|done].
  cbn [negb]. apply andb_true_iff in Hsq as [H1%bool_decide_eq_true_1
                                               H2%bool_decide_eq_true_1].
  do 3 (match goal with |- context [if negb ?b then _ else _] =>
          destruct b; cbn [negb]; [|done] end).
  rewrite (while_true_no_damping M M' d d'); [done|..];
    rewrite length_uniform; congruence.
Qed.
End NoDamping.

(** X6: without damping neither the links nor the dangling flags play a
    part.  With [damp = 0], two graphs with as many nodes and matrices of
    the same shape get the same answer from [pageRank], result or
    exception: the links and the flags enter lines 62-64 only through
    products with [damp]. *)
Theorem pageRank_no_damping link_mat link_mat' dangle_vec dangle_vec'
    eps max_iters :
  length dangle_vec = length dangle_vec' ->
  shape link_mat = shape link_mat' ->
  Solver.pageRank link_mat dangle_vec 0%Qc eps max_iters
  = Solver.pageRank link_mat' dangle_vec' 0%Qc eps max_iters.
Proof. apply pageRank_same_without_damping. Qed.

Lemma pageRank_no_damping_witness :
  Solver.pageRank example_mat [0; 0; 0] 0%Qc Solver.default_eps 50
  = Solver.pageRank (no_links 3).1 (no_links 3).2 0%Qc Solver.default_eps 50.
Proof.
  apply (pageRank_no_damping example_mat (no_links 3).1 [0; 0; 0]
           (no_links 3).2); reflexivity.
Defined.

Section Cap.
Local Open Scope Qc_scope.
Import Solver.
Variable link_mat : sparse.
Variable dangle_vec : list Z.
Variables damp eps : Qc.
Variable u : list Qc.

(** A run that stops on the residual goes the same way under a larger cap
    and with more passes allowed. *)
Lemma while_true_larger_cap k k' fuel fuel' s rk res it :
  (fuel <= fuel')%nat -> (iters s <= k)%Z -> (k <= k')%Z ->
  while_true link_mat dangle_vec damp eps k u fuel s
    = Some (Ok (rk, res, it, "residual"%string)) ->
  while_true link_mat dangle_vec damp eps k' u fuel' s
    = Some (Ok (rk, res, it, "residual"%string)).
Proof.
  revert fuel' s. induction fuel as [|fuel IH]; intros fuel' s Hf Hs Hk; [done|].
  destruct fuel' as [|fuel']; [lia|]. cbn [while_true].
  destruct (loop_pass link_mat dangle_vec damp eps k u s) as [[s'|out]|e] eqn:Hp; [| |done].
  - pose proof (loop_pass_finite _ _ _ _ _ _ _ _ Hp) as Hfin.
    apply loop_pass_continue in Hp as (Hres & Hne & ->). intros Hrun.
    unfold loop_pass. rewrite !bool_decide_eq_false_2 by (done || lia).
    rewrite Hfin. apply IH; [lia|simpl; lia|done|done].
  - intros ?; simplify_eq.
    apply loop_pass_break in Hp as [[? Hres]|[? _]]; simplify_eq.
    by rewrite loop_pass_residual.
Qed.
End Cap.

(** X7: a larger cap does not change a converged answer.  If [pageRank]
    stops on the residual with [max_iters = k], it returns the same vector,
    residual and number of iterations with any [max_iters >= k]. *)
Theorem pageRank_cap_monotone link_mat dangle_vec damp eps k k' rk res it :
  Solver.pageRank link_mat dangle_vec damp eps k
    = Some (Ok (rk, res, it, "residual"%string)) ->
  k <= k' ->
  Solver.pageRank link_mat dangle_vec damp eps k'
    = Some (Ok (rk, res, it, "residual"%string)).
Proof.
  intros Hrun Hk.
  pose proof (pageRank_Ok_full _ _ _ _ _ _ _ _ _ Hrun)
    as (Hshape & Hdamp & Heps & Hm & Hnorm).
  apply pageRank_Ok_inv in Hrun.
  rewrite pageRank_checked by (done || lia).
  rewrite (while_true_larger_cap _ _ _ _ _ k k' (S (Z.to_nat k)) _ _ rk res it);
    [by rewrite Hnorm|lia|simpl; lia|done|done].
Qed.

Lemma pageRank_cap_monotone_witness :
  Solver.pageRank (no_links 2).1 (no_links 2).2 Solver.default_damp
    Solver.default_eps 7
  = Some (Ok (Vec.uniform 2, 0%Qc, 1, "residual"%string)).
Proof.
  apply (pageRank_cap_monotone (no_links 2).1 (no_links 2).2
           Solver.default_damp Solver.default_eps 1 7).
  - vm_compute. reflexivity.
  - lia.
Defined.

(** * Further properties of the loader *)

Section AcceptFacts.
Import Loader.


Lemma length_line_entries (rows : list (Z * list Z)) :
  length (rows ≫= line_entries) = length (rows ≫= line_links).
Proof.
  induction rows as [|[s ds] rows IH]; [done|].
  rewrite !bind_cons, !length_app, IH.
  unfold line_entries, line_links. simpl. by rewrite length_fmap.
Qed.



Lemma weight_pos k : (0 < k)%nat -> (0 < weight k)%Qc.
Proof.
  intros Hk. unfold weight, Qcdiv. rewrite Qcmult_1_l.
  by apply Qcinv_pos, Qc_of_nat_pos.
Qed.

(** A line clears flags and sets none. *)
Lemma is_flags_marked rows dg : is_flags dg -> is_flags (foldl mark dg rows).
Proof.
  revert dg. induction rows as [|[s ds] rows IH]; intros dg Hdg; [done|].
  simpl. apply IH. unfold mark. simpl. destruct ds as [|d ds]; [done|].
  apply Forall_insert; [done|by left].
Qed.
End AcceptFacts.


(** X9: what an accepted file yields is well sized.  The matrix is [n x n],
    each of its entries has row and column below [n] and a positive weight;
    the flag vector has [n] entries, each 0 or 1. *)
Theorem readLinksFile_sizes f n M dg :
  Loader.readLinksFile f = Ok (n, M, dg) ->
  shape M = (Z.to_nat n, Z.to_nat n) /\
  Forall (fun '(i, j, w) =>
            (i < Z.to_nat n)%nat /\ (j < Z.to_nat n)%nat /\ (0 < w)%Qc)
    (entries M) /\
  length dg = Z.to_nat n /\ is_flags dg.
Proof.
  intros Hok. apply readLinksFile_Ok in Hok
    as (m & ls & rows & -> & Hn & Hrows & Hm & Hsrc & Hdst & -> & ->).
  simpl entries. split; [done|].
  split; [|split].
  - apply Forall_bind. apply Forall_lookup. intros k [s ds] Hk.
    eapply (proj1 (Forall_lookup _ _)) in Hsrc, Hdst; [|exact Hk..].
    simpl in Hsrc, Hdst. unfold compose, Loader.line_entries. simpl.
    destruct ds as [|d0 ds]; [by constructor|].
    specialize (Hsrc ltac:(done)).
    apply Forall_fmap. eapply Forall_impl; [|exact Hdst].
    intros d Hd. unfold compose. simpl in Hd. split; [lia|]. split; [lia|].
    apply weight_pos. simpl. lia.
  - by rewrite length_foldl_mark, length_replicate.
  - apply is_flags_marked, Forall_replicate. by right.
Qed.

Lemma readLinksFile_sizes_witness :
  shape example_mat = (Z.to_nat 3, Z.to_nat 3) /\
  Forall (fun '(i, j, w) =>
            (i < Z.to_nat 3)%nat /\ (j < Z.to_nat 3)%nat /\ (0 < w)%Qc)
    (entries example_mat) /\
  length [0; 0; 0] = Z.to_nat 3 /\ is_flags [0; 0; 0].
Proof.
  apply (readLinksFile_sizes Loader.example_file 3 example_mat [0; 0; 0]).
  vm_compute. reflexivity.
Defined.

Section LineFacts.
Import Loader.

Lemma read_lines_app l1 l2 st :
  read_lines (l1 ++ l2) st = read_lines l1 st ≫= read_lines l2.
Proof.
  revert st. induction l1 as [|l l1 IH]; intros st; [done|].
  simpl. destruct (read_line l st) as [st'|e]; [|done].
  cbn [mbind PyResult_bind]. apply IH.
Qed.

(** A line that holds a source and nothing else changes nothing. *)
Lemma read_lines_bare_source ls1 ls2 s st :
  read_lines (ls1 ++ [Digits s] :: ls2) st = read_lines (ls1 ++ ls2) st.
Proof.
  rewrite !read_lines_app. by destruct (read_lines ls1 st).
Qed.

Lemma int_next_Raise ln f e :
  int_next ln f = Raise e -> e = StopIteration ln \/ e = ValueError ln.
Proof.
  destruct f as [|[|[z|] [|? ?]] f']; simpl; intros ?; simplify_eq; auto.
Qed.

(** The exceptions of the inner loop, of a line and of the loop over the
    lines. *)
Lemma fill_error m source outdeg rest i st e :
  sized m st ->
  fill source outdeg rest i st = Raise e ->
  e = IndexError 89 \/ e = ValueError 90 \/ e = OverflowError 90.
Proof.
  revert i st. induction rest as [|x rest IH]; intros i st (Hs & Hl & Hn) Hfill;
    [done|].
  cbn [fill] in Hfill. rewrite (setitem_nat 89), Hs in Hfill.
  destruct (decide (links_seen st + i < m)%nat) as [Hk|Hk];
    [|simpl in Hfill; simplify_eq; auto].
  cbn [mbind PyResult_bind] in Hfill.
  destruct (as_int32 90 x) as [d|e'] eqn:Hd;
    cbn [mbind PyResult_bind] in Hfill;
    [|simplify_eq; apply as_int32_Raise in Hd as [->| ->]; auto].
  rewrite (setitem_nat 90), Hl, decide_True in Hfill by done.
  cbn [mbind PyResult_bind] in Hfill.
  rewrite (setitem_nat 91), Hn, decide_True in Hfill by done.
  cbn [mbind PyResult_bind] in Hfill.
  apply IH in Hfill; [done|].
  by unfold sized; cbn [sources links normadj]; rewrite !length_insert.
Qed.

Lemma read_line_error m l st e :
  sized m st ->
  read_line l st = Raise e ->
  e ∈ [IndexError 84; ValueError 84; IndexError 87; IndexError 89;
       ValueError 90; OverflowError 90].
Proof.
  intros Hsz Hread. rewrite !elem_of_cons.
  destruct l as [|x dests]; [simpl in Hread; simplify_eq; auto|].
  cbn [read_line] in Hread.
  destruct x as [s|]; [|simpl in Hread; simplify_eq; auto].
  cbn [int mbind PyResult_bind] in Hread.
  case_bool_decide; [|done].
  destruct (setitem 87 (dangle st) s 0) as [dg|e'] eqn:Hdg.
  - cbn [mbind PyResult_bind] in Hread.
    destruct (fill _ _ _ _ _) as [st1|e'] eqn:Hfill; [done|].
    cbn [mbind PyResult_bind] in Hread. simplify_eq.
    apply (fill_error m) in Hfill as [->|[->| ->]]; [auto 7..|done].
  - cbn [mbind PyResult_bind] in Hread. simplify_eq.
    unfold setitem in Hdg. repeat case_bool_decide; simplify_eq. auto.
Qed.

Lemma read_lines_error m ls st e :
  sized m st -> (links_seen st <= m)%nat ->
  read_lines ls st = Raise e ->
  e ∈ [IndexError 84; ValueError 84; IndexError 87; IndexError 89;
       ValueError 90; OverflowError 90].
Proof.
  revert st. induction ls as [|l ls IH]; intros st Hsz Hle Hread; [done|].
  cbn [read_lines] in Hread.
  destruct (read_line l st) as [st1|e'] eqn:Hl;
    cbn [mbind PyResult_bind] in Hread.
  - apply (read_line_Ok m) in Hl as (_ & _ & Hsz1 & _ & Hle1 & _); [|done..].
    by apply IH in Hread.
  - simplify_eq. by eapply read_line_error.
Qed.

(** Every exception of [readLinksFile] is on its list. *)
Lemma readLinksFile_Raise f e :
  readLinksFile f = Raise e -> loader_error e.
Proof.
  unfold readLinksFile, loader_error. rewrite !elem_of_cons. intros Hread.
  destruct (int_next 75 f) as [[n f1]|e'] eqn:H75;
    cbn [mbind PyResult_bind] in Hread;
    [|simplify_eq; apply int_next_Raise in H75 as [->| ->];
     repeat (first [by left|right])].
  destruct (int_next 76 f1) as [[m ls]|e'] eqn:H76;
    cbn [mbind PyResult_bind] in Hread;
    [|simplify_eq; apply int_next_Raise in H76 as [->| ->];
     repeat (first [by left|right])].
  unfold np_full in Hread.
  destruct (bool_decide (0 <= m)); cbn [mbind PyResult_bind] in Hread;
    [|simplify_eq; repeat (first [by left|right])].
  destruct (bool_decide (0 <= n)); cbn [mbind PyResult_bind] in Hread;
    [|simplify_eq; repeat (first [by left|right])].
  destruct (read_lines ls _) as [st|e'] eqn:Hlines;
    cbn [mbind PyResult_bind] in Hread.
  - unfold py_assert in Hread.
    case_bool_decide; cbn [mbind PyResult_bind] in Hread;
      [|simplify_eq; repeat (first [by left|right])].
    unfold coo_matrix in Hread.
    destruct (_ && _); cbn [mbind PyResult_bind] in Hread; simplify_eq.
    repeat (first [by left|right]).
  - simplify_eq.
    apply (read_lines_error (Z.to_nat m)) in Hlines; cbn [links_seen];
      [| by unfold sized; cbn; rewrite !length_replicate | lia].
    rewrite !elem_of_cons, elem_of_nil in Hlines.
    destruct Hlines as [->|[->|[->|[->|[->|[->|[]]]]]]];
      repeat (first [by left|right]).
Qed.
End LineFacts.

(** X10: a line that holds a source and no destination is ignored, as the
    docstring allows ("pages with no outgoing links do not need to have a
    line in the file"): with or without such a line, wherever it stands
    among the lines of links and whatever integer it holds, [readLinksFile]
    returns or raises the same. *)
Theorem readLinksFile_skips_bare_source h1 h2 ls1 ls2 s :
  Loader.readLinksFile (h1 :: h2 :: ls1 ++ [Loader.Digits s] :: ls2) =
  Loader.readLinksFile (h1 :: h2 :: ls1 ++ ls2).
Proof.
  unfold Loader.readLinksFile.
  destruct h1 as [|x1 [|? ?]]; [done| |done].
  destruct x1 as [n|]; [|done]. cbn [Loader.int_next Loader.int mbind PyResult_bind].
  destruct h2 as [|x2 [|? ?]]; [done| |done].
  destruct x2 as [m|]; [|done]. cbn [Loader.int mbind PyResult_bind].
  destruct (Loader.np_full 78 0 m) as [srcs|]; [|done].
  destruct (Loader.np_full 79 0 m) as [lnks|]; [|done].
  destruct (Loader.np_full 80 0%Qc m) as [nadj|]; [|done].
  destruct (Loader.np_full 81 1 n) as [dngl|]; [|done].
  cbn [mbind PyResult_bind]. by rewrite read_lines_bare_source.
Qed.

(** X11: a blank line or a field that is not an integer, anywhere among the
    lines of links, makes [readLinksFile] raise: no graph is returned. *)
Theorem malformed_line_rejected h1 h2 ls l :
  l ∈ ls ->
  l = [] \/ Loader.Garbage ∈ l ->
  exists e, Loader.readLinksFile (h1 :: h2 :: ls) = Raise e.
Proof.
  intros Hin Hbad.
  destruct (Loader.readLinksFile _) as [[[n M] dg]|e] eqn:Hread; [|by eexists].
  exfalso.
  apply readLinksFile_Ok in Hread as (m & ls' & rows & Hf & _ & Hrows & _).
  simplify_eq. apply mapM_Some_1 in Hrows.
  apply list_elem_of_lookup in Hin as [i Hi].
  destruct (Forall2_lookup_l _ _ _ _ _ Hrows Hi) as (row & _ & Hparse).
  apply parse_line_inv in Hparse as (dests & -> & Hds).
  destruct Hbad as [?|Hbad]; [done|].
  apply elem_of_cons in Hbad as [?|Hbad]; [done|].
  apply mapM_Some_1 in Hds.
  apply list_elem_of_lookup in Hbad as [j Hj].
  by destruct (Forall2_lookup_l _ _ _ _ _ Hds Hj) as (d & _ & ?).
Qed.

Lemma malformed_line_rejected_witness :
  exists e,
    Loader.readLinksFile
      [ [Loader.Digits 2]; [Loader.Digits 1];
        [Loader.Digits 0; Loader.Garbage] ] = Raise e.
Proof.
  apply (malformed_line_rejected [Loader.Digits 2] [Loader.Digits 1]
           [[Loader.Digits 0; Loader.Garbage]]
           [Loader.Digits 0; Loader.Garbage]).
  - by left.
  - right. right. by left.
Defined.

(** * The loader's output as the solver's input *)

Section ContractFacts.
Local Open Scope Qc_scope.
Import Loader.

(** The triples of an accepted file lie inside the matrix and have a
    positive weight. *)
Lemma loader_entries_range (n : Z) (rows : list (Z * list Z)) :
  Forall (fun row : Z * list Z => row.2 <> [] -> (0 <= row.1 < n)%Z) rows ->
  Forall (fun row : Z * list Z => Forall (fun d => (0 <= d < n)%Z) row.2) rows ->
  Forall (fun '(i, j, w) =>
            (i < Z.to_nat n)%nat /\ (j < Z.to_nat n)%nat /\ 0 < w)
    (rows ≫= line_entries).
Proof.
  intros Hsrc Hdst.
  apply Forall_bind. apply Forall_lookup. intros k [s ds] Hk.
  eapply (proj1 (Forall_lookup _ _)) in Hsrc, Hdst; [|exact Hk..].
  simpl in Hsrc, Hdst. unfold compose, line_entries. simpl.
  destruct ds as [|d0 ds]; [by constructor|].
  specialize (Hsrc ltac:(done)).
  apply Forall_fmap. eapply Forall_impl; [|exact Hdst].
  intros d Hd. unfold compose. simpl in Hd. split; [lia|]. split; [lia|].
  apply weight_pos. simpl. lia.
Qed.

(** With no source on two lines with destinations, what the loader returns
    meets the contract of the solver. *)
Lemma loader_stochastic (n : Z) ls rows :
  (0 <= n)%Z ->
  mapM parse_line ls = Some rows ->
  Forall (fun row : Z * list Z => row.2 <> [] -> (0 <= row.1 < n)%Z) rows ->
  Forall (fun row : Z * list Z => Forall (fun d => (0 <= d < n)%Z) row.2) rows ->
  (forall s, (lines_from s ls <= 1)%nat) ->
  stochastic (Sparse (Z.to_nat n, Z.to_nat n) (rows ≫= line_entries))
    (foldl mark (replicate (Z.to_nat n) 1%Z) rows).
Proof.
  intros Hn Hrows Hsrc Hdst Hone. unfold stochastic.
  rewrite length_foldl_mark, length_replicate. simpl entries.
  assert (Forall (fun row : Z * list Z => row.2 <> [] ->
            (0 <= row.1 < Z.of_nat (length (replicate (Z.to_nat n) 1%Z)))%Z)
            rows) as Hsrc'.
  { rewrite length_replicate, Z2Nat.id by done. exact Hsrc. }
  split; [done|]. split.
  - eapply Forall_impl; [|exact (loader_entries_range n rows Hsrc Hdst)].
    intros [[i j] w] (? & ? & Hw). split; [done|]. split; [done|].
    by apply Qclt_le_weak.
  - intros c Hc.
    destruct (decide (Exists (fun row : Z * list Z =>
                row.2 <> [] /\ row.1 = Z.of_nat c) rows)) as [Hex|Hex].
    + right. split; [by apply foldl_mark_hit|].
      rewrite (colsum_lines n c ls rows) by done.
      pose proof (lines_from_pos c ls rows Hrows Hex) as Hpos.
      pose proof (Hone (Z.of_nat c)) as Hle.
      replace (lines_from (Z.of_nat c) ls) with 1%nat by lia.
      apply Qc_of_Z_1.
    + left. split.
      * rewrite foldl_mark_miss by done. apply lookup_replicate_2. lia.
      * apply list.Forall_forall. intros [[i j] w] Hin ->. exfalso.
        apply Hex, (entries_column rows n c Hsrc), list.Exists_exists.
        by exists (i, c, w).
Qed.
End ContractFacts.

(** X13: the loader feeds the solver what it expects.  For an accepted file
    in which no source stands on more than one line with destinations, the
    matrix and the flags returned are [stochastic]: indices inside the
    shape, no negative weight, an empty column for each dangling node and a
    column that sums to 1 for each other node. *)
Theorem readLinksFile_stochastic f n M dg :
  Loader.readLinksFile f = Ok (n, M, dg) ->
  (forall s, (Loader.lines_from s (drop 2 f) <= 1)%nat) ->
  stochastic M dg.
Proof.
  intros Hok Hone. apply readLinksFile_Ok in Hok
    as (m & ls & rows & -> & Hn & Hrows & Hm & Hsrc & Hdst & -> & ->).
  by apply (loader_stochastic n ls rows).
Qed.

Lemma readLinksFile_stochastic_witness :
  stochastic (Sparse (2%nat, 2%nat) [(1%nat, 0%nat, Loader.weight 1)]) [0; 1].
Proof.
  apply (readLinksFile_stochastic
           [[Loader.Digits 2]; [Loader.Digits 1];
            [Loader.Digits 0; Loader.Digits 1]] 2).
  - vm_compute. reflexivity.
  - intros s. unfold Loader.lines_from. simpl drop.
    rewrite filter_cons. case_decide; simpl; lia.
Defined.

(** * Normalisation *)

Section Normalise.
Local Open Scope Qc_scope.
Local Arguments Vec.sum : simpl never.
Import Solver.

Lemma sum_div v c : Vec.sum (Vec.div v c) = Vec.sum v / c.
Proof.
  unfold Vec.div, Qcdiv. induction v as [|x v IH].
  - rewrite fmap_nil, sum_nil. ring.
  - rewrite fmap_cons, !sum_cons, IH. ring.
Qed.

Variable link_mat : sparse.
Variable dangle_vec : list Z.
Variable damp : Qc.
Hypothesis Hn : (1 <= length dangle_vec)%nat.
Hypothesis Hdamp : 0 <= damp /\ damp < 1.
Hypothesis Hshape : shape link_mat = (length dangle_vec, length dangle_vec).
Hypothesis Hweights : Forall (fun '(_, _, w) => 0 <= w) (entries link_mat).
Hypothesis Hflags : is_flags dangle_vec.

(** With [damp < 1] and no negative weight, the vector of lines 62-64 has
    no negative entry and a positive sum. *)
Lemma unnormalised_positive rk :
  length rk = length dangle_vec -> Forall (Qcle 0) rk ->
  Forall (Qcle 0)
    (unnormalised link_mat dangle_vec damp (Vec.uniform (length dangle_vec)) rk)
  /\
  0 < Vec.sum
        (unnormalised link_mat dangle_vec damp
           (Vec.uniform (length dangle_vec)) rk).
Proof.
  intros Hlen Hpos. destruct Hdamp as [Hd0 Hd1].
  set (n := length dangle_vec) in *. set (u := Vec.uniform n).
  assert (Forall (Qcle 0) u) as Hu.
  { apply Forall_replicate, Qcdiv_nonneg; [done|apply Qc_of_nat_nonneg]. }
  assert (Forall (Qcle 0) (Sp.matvec link_mat rk)) as Hmv
    by by apply matvec_nonneg.
  assert (0 <= 1 - damp) as Hd1'.
  { apply Qclt_le_weak in Hd1.
    apply (proj1 (Qcle_minus_iff damp 1)) in Hd1. exact Hd1. }
  split.
  - unfold unnormalised. repeat apply add_nonneg.
    + apply scale_nonneg; [|done].
      apply Qcmult_nonneg_nonneg; [done|by apply dot_nonneg].
    + by apply scale_nonneg.
    + by apply scale_nonneg.
  - unfold unnormalised.
    assert (length (Vec.add (Vec.scale (damp * Vec.dot dangle_vec rk) u)
                      (Vec.scale (1 - damp) u)) = n) as Hl1.
    { unfold u. by rewrite length_add, length_scale, length_uniform
        by by rewrite !length_scale. }
    rewrite sum_add
      by by rewrite Hl1, length_scale, length_matvec, Hshape.
    rewrite sum_add by by rewrite !length_scale.
    rewrite !sum_scale. unfold u. rewrite sum_uniform by lia.
    rewrite !Qcmult_1_r.
    apply Qcplus_pos_nonneg.
    + apply Qcplus_nonneg_pos.
      * apply Qcmult_nonneg_nonneg; [done|by apply dot_nonneg].
      * apply (proj1 (Qclt_minus_iff damp 1)) in Hd1. exact Hd1.
    + apply Qcmult_nonneg_nonneg; [done|by apply sum_nonneg].
Qed.

(** Line 65 then divides by a positive norm. *)
Lemma normalised_nonzero rk :
  length rk = length dangle_vec -> Forall (Qcle 0) rk ->
  Vec.norm1 (unnormalised link_mat dangle_vec damp
               (Vec.uniform (length dangle_vec)) rk) <> 0.
Proof.
  intros Hlen Hpos.
  destruct (unnormalised_positive rk Hlen Hpos) as [Hv Hsum].
  rewrite norm1_nonneg by done. intros E. rewrite E in Hsum.
  by apply Qclt_not_eq in Hsum.
Qed.

(** And yields a probability distribution. *)
Lemma update_normalised rk :
  length rk = length dangle_vec -> Forall (Qcle 0) rk ->
  length (update link_mat dangle_vec damp (Vec.uniform (length dangle_vec)) rk)
  = length dangle_vec /\
  distribution
    (update link_mat dangle_vec damp (Vec.uniform (length dangle_vec)) rk).
Proof.
  intros Hlen Hpos.
  destruct (unnormalised_positive rk Hlen Hpos) as [Hv Hsum].
  split.
  { etrans; [apply length_update|apply length_uniform].
    by rewrite Hshape, length_uniform. }
  unfold update. rewrite norm1_nonneg by done. split.
  - unfold Vec.div. apply Forall_fmap.
    eapply Forall_impl; [|exact Hv]. intros x Hx. simpl.
    apply Qcdiv_nonneg; [done|by apply Qclt_le_weak].
  - rewrite sum_div. field. intros E. rewrite E in Hsum.
    by apply Qclt_not_eq in Hsum.
Qed.

Variables eps : Qc.
Variable max_iters : Z.

Lemma while_true_normalised fuel s out :
  length (r s) = length dangle_vec -> distribution (r s) ->
  while_true link_mat dangle_vec damp eps max_iters
    (Vec.uniform (length dangle_vec)) fuel s = Some out ->
  exists rk res it stop,
    out = Ok (rk, res, it, stop) /\
    length rk = length dangle_vec /\ distribution rk.
Proof.
  revert s. induction fuel as [|fuel IH]; intros s Hlen Hdist; [done|].
  cbn [while_true].
  destruct (loop_pass _ _ _ _ _ _ s) as [[s'|out']|e] eqn:Hp.
  - apply loop_pass_continue in Hp as (_ & _ & ->).
    destruct (update_normalised (r s) Hlen (proj1 Hdist)) as [Hlen' Hdist'].
    by apply IH.
  - intros ?; simplify_eq.
    apply loop_pass_break in Hp as [[-> _]|[-> _]]; by eexists _, _, _, _.
  - apply loop_pass_Raise in Hp as (_ & _ & _ & Hz).
    rewrite divides_by_zero_false in Hz; [done|].
    apply normalised_nonzero; [done|apply Hdist].
Qed.

Lemma pageRank_normalised :
  0 <= eps -> (0 <= max_iters)%Z ->
  exists rk res it stop,
    pageRank link_mat dangle_vec damp eps max_iters
    = Some (Ok (rk, res, it, stop)) /\
    length rk = length dangle_vec /\ distribution rk.
Proof.
  intros Heps Hm. destruct Hdamp as [Hd0 Hd1].
  rewrite pageRank_checked; [|done|by split; [|apply Qclt_le_weak]|done..].
  set (u := Vec.uniform (length dangle_vec)).
  destruct (while_true_stops link_mat dangle_vec damp eps max_iters u
              (LoopState u u (sentinel eps) 0)) as [out Hrun]; [done|].
  simpl iters in Hrun. rewrite Z.sub_0_r in Hrun. rewrite Hrun.
  apply while_true_normalised in Hrun
    as (rk & res & it & stop & -> & Hlen & Hpos & Hsum); simpl.
  - exists rk, res, it, stop. unfold norm_check.
    rewrite norm1_nonneg, Hsum by done.
    replace (1 - 1) with 0 by ring. by rewrite Qcabs_pos.
  - apply length_uniform.
  - split; [|by apply sum_uniform].
    apply Forall_replicate, Qcdiv_nonneg; [done|apply Qc_of_nat_nonneg].
Qed.
End Normalise.

(** X14: normalisation alone makes the result a distribution.  With at least
    one node, [0 <= damp < 1], a square matrix without negative weights and
    0/1 flags, [pageRank] returns, passes the check of line 70, and its
    rank vector has one nonnegative entry per node, summing to 1; the
    columns need not sum to 1. *)
Theorem normalisation_gives_distribution link_mat dangle_vec damp eps max_iters :
  (1 <= length dangle_vec)%nat ->
  (0 <= damp /\ damp < 1)%Qc ->
  shape link_mat = (length dangle_vec, length dangle_vec) ->
  Forall (fun '(_, _, w) => (0 <= w)%Qc) (entries link_mat) ->
  is_flags dangle_vec ->
  (0 <= eps)%Qc -> 0 <= max_iters ->
  exists rk res it stop,
    Solver.pageRank link_mat dangle_vec damp eps max_iters
    = Some (Ok (rk, res, it, stop)) /\
    length rk = length dangle_vec /\ distribution rk.
Proof.
  intros. by apply pageRank_normalised.
Qed.

Lemma normalisation_gives_distribution_witness :
  exists rk res it stop,
    Solver.pageRank
      (Sparse (2%nat, 2%nat) [(1%nat, 0%nat, 1%Qc); (0%nat, 0%nat, 1%Qc)])
      [0; 1] Solver.default_damp Solver.default_eps 3
    = Some (Ok (rk, res, it, stop)) /\
    length rk = length [0; 1] /\ distribution rk.
Proof.
  apply (normalisation_gives_distribution
           (Sparse (2%nat, 2%nat) [(1%nat, 0%nat, 1%Qc); (0%nat, 0%nat, 1%Qc)])
           [0; 1] Solver.default_damp Solver.default_eps 3).
  - simpl. lia.
  - split; by vm_compute.
  - reflexivity.
  - repeat constructor; by vm_compute.
  - repeat constructor; first [by left|by right].
  - by vm_compute.
  - lia.
Defined.

(** * The driver *)

Section MainFacts.
Import Loader.
Variable str_rank : Qc -> string.

Lemma default_damp_range :
  (0 <= Solver.default_damp /\ Solver.default_damp < 1)%Qc.
Proof. split; by vm_compute. Qed.

Lemma default_eps_nonneg : (0 <= Solver.default_eps)%Qc.
Proof. by vm_compute. Qed.


(** An accepted file with at least one node is ranked and written. *)
Lemma main_accepts f n M dg :
  readLinksFile f = Ok (n, M, dg) -> 1 <= n ->
  exists rk,
    Driver.main str_rank f = Some (Ok (0, Driver.writeRanksFile str_rank rk)) /\
    length rk = Z.to_nat n /\ distribution rk.
Proof.
  intros Hok Hn1. unfold Driver.main. rewrite Hok.
  apply readLinksFile_Ok in Hok
    as (m & ls & rows & -> & Hn & Hrows & Hm & Hsrc & Hdst & -> & ->).
  set (M := Sparse _ _). set (dg := foldl mark _ rows).
  assert (length dg = Z.to_nat n) as Hlen
    by (unfold dg; by rewrite length_foldl_mark, length_replicate).
  destruct (pageRank_normalised M dg Solver.default_damp)
    with (eps := Solver.default_eps) (max_iters := Solver.default_max_iters)
    as (rk & res & it & stop & Hrun & Hlen' & Hdist).
  - lia.
  - exact default_damp_range.
  - by rewrite Hlen.
  - eapply Forall_impl; [|exact (loader_entries_range n rows Hsrc Hdst)].
    intros [[i j] w] (_ & _ & Hw). by apply Qclt_le_weak.
  - apply is_flags_marked, Forall_replicate. by right.
  - exact default_eps_nonneg.
  - done.
  - rewrite Hrun. exists rk. by rewrite Hlen', Hlen.
Qed.

(** A file that declares no node is loaded, and fails the check of line 70. *)
Lemma main_no_nodes f M dg :
  readLinksFile f = Ok (0, M, dg) ->
  Driver.main str_rank f = Some (Raise (AssertionError 70)).
Proof.
  intros Hok. unfold Driver.main. rewrite Hok.
  apply readLinksFile_Ok in Hok
    as (m & ls & rows & -> & Hn & Hrows & Hm & Hsrc & Hdst & -> & ->).
  pose proof (loader_entries_range 0 rows Hsrc Hdst) as Hrange.
  destruct (rows ≫= line_entries) as [|[[i j] w] es].
  - assert (foldl mark (replicate (Z.to_nat 0) 1) rows = []) as ->.
    { apply nil_length_inv. by rewrite length_foldl_mark, length_replicate. }
    by vm_compute.
  - apply Forall_inv in Hrange. simpl in Hrange. lia.
Qed.

Lemma main_Raise f e :
  Driver.main str_rank f = Some (Raise e) <->
  readLinksFile f = Raise e \/
  (e = AssertionError 70 /\ exists M dg, readLinksFile f = Ok (0, M, dg)).
Proof.
  split.
  - intros Hmain. destruct (readLinksFile f) as [[[n M] dg]|e'] eqn:Hok.
    + right. destruct (decide (1 <= n)) as [Hn1|Hn0].
      * destruct (main_accepts f n M dg Hok Hn1) as (rk & Hrk & _).
        rewrite Hrk in Hmain. discriminate.
      * assert (n = 0) as ->.
        { apply readLinksFile_Ok in Hok as (m & ls & rows & _ & Hn & _). lia. }
        rewrite (main_no_nodes f M dg Hok) in Hmain. simplify_eq.
        split; [done|]. by exists M, dg.
    + unfold Driver.main in Hmain. rewrite Hok in Hmain. simplify_eq.
      by left.
  - intros [Hraise|(-> & M & dg & Hok)].
    + unfold Driver.main. by rewrite Hraise.
    + by apply (main_no_nodes f M dg).
Qed.

Lemma main_returns f :
  (exists rk, Driver.main str_rank f
              = Some (Ok (0, Driver.writeRanksFile str_rank rk)) /\
              distribution rk) \/
  (exists e, Driver.main str_rank f = Some (Raise e) /\
             (loader_error e \/ e = AssertionError 70)).
Proof.
  destruct (readLinksFile f) as [[[n M] dg]|e] eqn:Hok.
  - destruct (decide (1 <= n)) as [Hn1|Hn0].
    + left. destruct (main_accepts f n M dg Hok Hn1) as (rk & Hrk & _ & Hd).
      by exists rk.
    + right. exists (AssertionError 70). split; [|by right].
      apply (main_no_nodes f M dg).
      assert (n = 0) as ->; [|done].
      pose proof Hok as Hok'.
      apply readLinksFile_Ok in Hok' as (m & ls & rows & _ & Hn & _). lia.
  - right. exists e. split.
    + unfold Driver.main. by rewrite Hok.
    + left. by apply (readLinksFile_Raise f).
Qed.
End MainFacts.



(** X16: when the driver fails.  [main] raises [e] exactly when
    [readLinksFile] raises [e], or when the file is accepted with a node
    count of 0 and [e] is the assertion of line 70 of [pageRank]. *)
Theorem main_raises_iff str_rank f e :
  Driver.main str_rank f = Some (Raise e) <->
  Loader.readLinksFile f = Raise e \/
  (e = AssertionError 70 /\
   exists M dg, Loader.readLinksFile f = Ok (0, M, dg)).
Proof. apply main_Raise. Qed.

(** X17: the driver always finishes, in one of two ways: it writes the ranks
    of a probability distribution and returns 0, or it raises one of the
    loader's exceptions or the assertion of line 70.  The assertions of
    lines 41 to 44 never fire from [main]. *)
Theorem main_outcomes str_rank f :
  (exists rk, Driver.main str_rank f
              = Some (Ok (0, Driver.writeRanksFile str_rank rk)) /\
              distribution rk) \/
  (exists e, Driver.main str_rank f = Some (Raise e) /\
             (loader_error e \/ e = AssertionError 70)).
Proof. apply main_returns. Qed.

(** * The matrix and its representation *)

Section Representation.
Local Open Scope Qc_scope.
Local Arguments Vec.sum : simpl never.
Import Solver.

(** A row of the product, in terms of the coefficients. *)
Lemma row_product_coeff sh es x i K :
  Forall (fun '(_, j, _) => (j < K)%nat) es ->
  Spec.row_product (Sparse sh es) x i =
  Vec.sum_upto K (fun j => Sp.coeff (Sparse sh es) i j * Vec.get x j).
Proof.
  unfold Spec.row_product, Sp.coeff. simpl entries.
  induction 1 as [|[[i' j'] w] es Hj _ IH].
  - rewrite fmap_nil, sum_nil.
    rewrite (sum_upto_ext _ _ (fun _ => 0)), sum_upto_zero; [done|].
    intros c _. rewrite fmap_nil, sum_nil. ring.
  - rewrite fmap_cons, sum_cons.
    rewrite (sum_upto_ext K _
               (fun j => (if decide (j' = j)
                          then (if decide (i' = i) then w else 0) else 0)
                         * Vec.get x j
                         + Vec.sum ((fun '(i'', j'', w') =>
                               if decide (i'' = i /\ j'' = j) then w' else 0)
                              <$> es) * Vec.get x j)).
    + rewrite sum_upto_plus, sum_upto_single, IH by done.
      destruct (decide (i' = i)); ring.
    + intros c _. rewrite fmap_cons, sum_cons.
      destruct (decide (i' = i)), (decide (j' = c));
        [rewrite decide_True by done|rewrite decide_False by tauto..]; ring.
Qed.

(** The product depends on the triples only through the coefficients. *)
Lemma matvec_coefficients M M' x :
  same_matrix M M' -> Sp.matvec M x = Sp.matvec M' x.
Proof.
  intros (Hshape & Hin & Hin' & Hcoeff).
  rewrite !matvec_product. unfold Spec.product. rewrite <- Hshape.
  apply list_fmap_ext. intros _ i _.
  destruct M as [sh es], M' as [sh' es']. simpl in *. subst sh'.
  rewrite (row_product_coeff sh es x i (snd sh)) by done.
  rewrite (row_product_coeff sh es' x i (snd sh)) by done.
  apply sum_upto_ext. intros j _. by rewrite Hcoeff.
Qed.

Lemma loop_pass_representation M M' d damp eps max_iters u s :
  same_matrix M M' ->
  loop_pass M d damp eps max_iters u s = loop_pass M' d damp eps max_iters u s.
Proof.
  intros Hsame. unfold loop_pass, divides_by_zero, update, unnormalised.
  by rewrite (matvec_coefficients M M').
Qed.

Lemma while_true_representation M M' d damp eps max_iters u fuel s :
  same_matrix M M' ->
  while_true M d damp eps max_iters u fuel s
  = while_true M' d damp eps max_iters u fuel s.
Proof.
  intros Hsame. revert s. induction fuel as [|fuel IH]; intros s; [done|].
  cbn [while_true]. rewrite (loop_pass_representation M M') by done.
  destruct (loop_pass M' d damp eps max_iters u s) as [[s'|out]|e]; auto.
Qed.

Lemma pageRank_same_matrix M M' d damp eps max_iters :
  same_matrix M M' ->
  pageRank M d damp eps max_iters = pageRank M' d damp eps max_iters.
Proof.
  intros Hsame. unfold pageRank.
  rewrite (while_true_representation M M') by done.
  by destruct Hsame as [-> _].
Qed.
End Representation.

(** X18: [pageRank] sees the matrix only through its coefficients.  Two
    lists of triples with the same shape, columns inside it and the same sum
    at every position get the same answer, result or exception: whether the
    triples that share a position are kept apart, as the loader writes them,
    or merged into their sum, as [tocsr] leaves them, makes no difference in
    exact arithmetic. *)
Theorem pageRank_representation M M' dangle_vec damp eps max_iters :
  same_matrix M M' ->
  Solver.pageRank M dangle_vec damp eps max_iters
  = Solver.pageRank M' dangle_vec damp eps max_iters.
Proof. apply pageRank_same_matrix. Qed.

(** The line [0, 1, 1] of a file with two pages: two triples at the same
    position, or one that holds their sum. *)
Lemma pageRank_representation_witness :
  Solver.pageRank
    (Sparse (2%nat, 2%nat)
       [(1%nat, 0%nat, Loader.weight 2); (1%nat, 0%nat, Loader.weight 2)])
    [0; 1] Solver.default_damp Solver.default_eps 3
  = Solver.pageRank (Sparse (2%nat, 2%nat) [(1%nat, 0%nat, 1%Qc)])
      [0; 1] Solver.default_damp Solver.default_eps 3.
Proof.
  apply (pageRank_representation
           (Sparse (2%nat, 2%nat)
              [(1%nat, 0%nat, Loader.weight 2); (1%nat, 0%nat, Loader.weight 2)])
           (Sparse (2%nat, 2%nat) [(1%nat, 0%nat, 1%Qc)])).
  split; [reflexivity|]. split; [repeat constructor|].
  split; [repeat constructor|].
  intros i j. unfold Sp.coeff. simpl.
  destruct (decide (1%nat = i /\ 0%nat = j)); by apply Qc_is_canon.
Defined.
